(** * The upload controller of [script.js]

    A shallow embedding of the click handler that [script.js] binds to
    [#uploadBtn]: the handler posts the selected spreadsheet to a fixed
    endpoint, derives a file name for the answer and starts a download.

    Layout of the development:
    - [JsString]: JavaScript strings as sequences of UTF-16 code units,
      with the three string operations the handler uses
      ([String.prototype.replace] with a string pattern, the match of
      [/filename="(.+)"/], and the decimal rendering of a number);
    - [Dom]: the part of the page the handler reads and writes;
    - [Async]: a small monad of platform calls with exceptions,
      [try]/[catch]/[finally] and [await];
    - [Script]: the handler itself, line by line;
    - [EventLoop]: clicks and promise settlements interleaved by the
      browser, and the shapes of programs that keep the button disabled
      while they wait;
    - [Spec]: the fallback file name as the specification words it;
    - [Examples]: concrete pages, files and servers;
    - facts about the string operations, the meaning of each combinator
      under [run], the runs of the handler on each of its ways out, the
      turns of the event loop;
    - the properties. *)

From Stdlib Require Import List NArith Bool String Ascii DecimalString Lia Arith.
Import ListNotations.

Set Implicit Arguments.

(* ------------------------------------------------------------------ *)
(** ** JavaScript strings *)

Module JsString.

(** A string value is a finite sequence of 16-bit code units. *)
Definition code_unit := N.
Definition jsstring := list code_unit.

(** An ASCII literal of the source, one code unit per character. *)
Definition lit (s : string) : jsstring :=
  map N_of_ascii (list_ascii_of_string s).

(** The double quote character, U+0022. *)
Definition dquote : code_unit := 34%N.

(** [s === t]. *)
Fixpoint eqb (s t : jsstring) : bool :=
  match s, t with
  | [], [] => true
  | c :: s', d :: t' => N.eqb c d && eqb s' t'
  | _, _ => false
  end.

(** [starts_with pat s]: [s.startsWith(pat)]. *)
Fixpoint starts_with (pat s : jsstring) : bool :=
  match pat, s with
  | [], _ => true
  | p :: pat', c :: s' => N.eqb p c && starts_with pat' s'
  | _ :: _, [] => false
  end.

(** [includes pat s]: [s.includes(pat)], some position of [s] starts
    with [pat]. *)
Fixpoint includes (pat s : jsstring) : bool :=
  starts_with pat s ||
  match s with
  | [] => false
  | _ :: s' => includes pat s'
  end.

(** [s.replace(pat, rep)] for a string pattern [pat] and a replacement
    [rep] without [$]: the first occurrence of [pat], scanning from the
    left, is replaced; a string without occurrence is returned as it is. *)
Fixpoint replace (pat rep s : jsstring) : jsstring :=
  if starts_with pat s then rep ++ skipn (List.length pat) s
  else match s with
       | [] => []
       | c :: s' => c :: replace pat rep s'
       end.

(** Line terminators, which [.] does not match (no [s] flag). *)
Definition line_terminator (c : code_unit) : bool :=
  N.eqb c 10 || N.eqb c 13 || N.eqb c 8232 || N.eqb c 8233.

(** The longest prefix of [s] made of characters that [.] matches. *)
Fixpoint dot_run (s : jsstring) : jsstring :=
  match s with
  | [] => []
  | c :: s' => if line_terminator c then [] else c :: dot_run s'
  end.

(** [before_last_quote r]: what precedes the last double quote of [r]. *)
Fixpoint before_last_quote (r : jsstring) : option jsstring :=
  match r with
  | [] => None
  | c :: r' =>
      match before_last_quote r' with
      | Some p => Some (c :: p)
      | None => if N.eqb c dquote then Some [] else None
      end
  end.

(** The group [(.+)] and the closing double quote matched at the head
    of [s].  The quantifier is greedy: it first takes the whole run of
    non-terminators and gives characters back until a double quote
    follows, so the group ends at the last double quote of the run; it
    must hold one character at least. *)
Definition group_then_quote (s : jsstring) : option jsstring :=
  match before_last_quote (dot_run s) with
  | Some (c :: p) => Some (c :: p)
  | _ => None
  end.

(** The literal head of the pattern: [filename=] and a double quote. *)
Definition filename_eq_quote : jsstring := lit "filename=" ++ [dquote].

(** The whole pattern [/filename="(.+)"/] tried at the head of [s]. *)
Definition match_here (s : jsstring) : option jsstring :=
  if starts_with filename_eq_quote s
  then group_then_quote (skipn (List.length filename_eq_quote) s)
  else None.

(** [s.match(/filename="(.+)"/)]: the leftmost position where the
    pattern matches; the result is group 1 ([match[1]]), [None] is the
    [null] of a failed match. *)
Fixpoint match_filename (s : jsstring) : option jsstring :=
  match match_here s with
  | Some g => Some g
  | None =>
      match s with
      | [] => None
      | _ :: s' => match_filename s'
      end
  end.

(** [`${n}`] for a non-negative integer [n]: its decimal digits. *)
Definition of_number (n : N) : jsstring :=
  lit (NilEmpty.string_of_uint (N.to_uint n)).

End JsString.
Import JsString.

(* ------------------------------------------------------------------ *)
(** ** The page and the values that cross the platform boundary *)

Module Dom.

(** Binary content of a file, of a response body, of a download. *)
Definition Blob := list Byte.byte.

(** An entry of [fileInput.files]. *)
Record File := { name : jsstring; file_data : Blob }.

(** What [throw] raises and a rejected promise carries: an [Error]
    object, of which the handler reads [message]. *)
Record JsError := { message : jsstring }.

(** How a platform call or a promise ends: with a value, or with an
    exception (a rejection, for a promise). *)
Inductive Outcome (A : Type) : Type :=
| Fulfilled (a : A)
| Rejected (e : JsError).
Arguments Fulfilled {A} a.
Arguments Rejected {A} e.

(** A [Response]: its status code, [headers.get] and how the promise
    of [blob()] settles (the body read to its end, or a failure while
    reading it). *)
Record Response := {
  status : N;
  headers_get : jsstring -> option jsstring;
  blob : Outcome Blob
}.

(** [res.ok], which the Fetch standard defines from the status. *)
Definition ok (res : Response) : bool :=
  N.leb 200 (status res) && N.leb (status res) 299.

(** A [FormData]: its entries in the order of the [append] calls. *)
Definition FormData := list (jsstring * File).

(** The arguments of one [fetch] call. *)
Record Request := { url : jsstring; method : jsstring; body : FormData }.

(** An object URL, naming an entry of the page's blob URL store. *)
Inductive Url := BlobUrl (n : nat).

(** An [<a>] element: its identity and the two attributes written. *)
Record Anchor := {
  node : nat;
  href : option Url;
  download : option jsstring
}.

(** A file handed to the user by the browser's download mechanism. *)
Record Download := { saved_as : jsstring; saved_data : Blob }.

(** The platform calls a run makes, in the order it makes them. *)
Inductive Event :=
| Wrote_status (s : jsstring)
| Wrote_disabled (b : bool)
| Logged (res : Response)
| Fetched (rq : Request)
| Read_blob (res : Response)
| Created_object_url (u : Url)
| Created_element (a : Anchor)
| Appended (a : Anchor)
| Clicked (a : Anchor)
| Removed (a : Anchor)
| Threw (e : JsError).

(** The state the handler works on: the three elements looked up in
    lines 1-3, the children this script adds to [document.body], the
    blob URL store, the downloads started so far and the log. *)
Record Page := {
  status_textContent : jsstring;
  uploadBtn_disabled : bool;
  fileInput_files : list File;
  body_children : list Anchor;
  object_urls : list Blob;
  elements_created : nat;
  downloads : list Download;
  log : list Event
}.

Definition with_status (s : jsstring) (pg : Page) : Page :=
  {| status_textContent := s;
     uploadBtn_disabled := uploadBtn_disabled pg;
     fileInput_files := fileInput_files pg;
     body_children := body_children pg;
     object_urls := object_urls pg;
     elements_created := elements_created pg;
     downloads := downloads pg;
     log := log pg |}.

Definition with_disabled (b : bool) (pg : Page) : Page :=
  {| status_textContent := status_textContent pg;
     uploadBtn_disabled := b;
     fileInput_files := fileInput_files pg;
     body_children := body_children pg;
     object_urls := object_urls pg;
     elements_created := elements_created pg;
     downloads := downloads pg;
     log := log pg |}.

Definition with_files (fs : list File) (pg : Page) : Page :=
  {| status_textContent := status_textContent pg;
     uploadBtn_disabled := uploadBtn_disabled pg;
     fileInput_files := fs;
     body_children := body_children pg;
     object_urls := object_urls pg;
     elements_created := elements_created pg;
     downloads := downloads pg;
     log := log pg |}.

Definition with_children (cs : list Anchor) (pg : Page) : Page :=
  {| status_textContent := status_textContent pg;
     uploadBtn_disabled := uploadBtn_disabled pg;
     fileInput_files := fileInput_files pg;
     body_children := cs;
     object_urls := object_urls pg;
     elements_created := elements_created pg;
     downloads := downloads pg;
     log := log pg |}.

Definition with_object_urls (us : list Blob) (pg : Page) : Page :=
  {| status_textContent := status_textContent pg;
     uploadBtn_disabled := uploadBtn_disabled pg;
     fileInput_files := fileInput_files pg;
     body_children := body_children pg;
     object_urls := us;
     elements_created := elements_created pg;
     downloads := downloads pg;
     log := log pg |}.

Definition with_elements_created (n : nat) (pg : Page) : Page :=
  {| status_textContent := status_textContent pg;
     uploadBtn_disabled := uploadBtn_disabled pg;
     fileInput_files := fileInput_files pg;
     body_children := body_children pg;
     object_urls := object_urls pg;
     elements_created := n;
     downloads := downloads pg;
     log := log pg |}.

Definition with_downloads (ds : list Download) (pg : Page) : Page :=
  {| status_textContent := status_textContent pg;
     uploadBtn_disabled := uploadBtn_disabled pg;
     fileInput_files := fileInput_files pg;
     body_children := body_children pg;
     object_urls := object_urls pg;
     elements_created := elements_created pg;
     downloads := ds;
     log := log pg |}.

(** [record ev pg]: the log grows by [ev]. *)
Definition record (ev : Event) (pg : Page) : Page :=
  {| status_textContent := status_textContent pg;
     uploadBtn_disabled := uploadBtn_disabled pg;
     fileInput_files := fileInput_files pg;
     body_children := body_children pg;
     object_urls := object_urls pg;
     elements_created := elements_created pg;
     downloads := downloads pg;
     log := log pg ++ [ev] |}.

(** What a click on an anchor starts: with a [download] attribute and
    an object URL that the store resolves, the blob is saved under the
    attribute's value. *)
Definition started_by_click (a : Anchor) (pg : Page) : list Download :=
  match download a, href a with
  | Some fname, Some (BlobUrl n) =>
      match nth_error (object_urls pg) n with
      | Some b => [{| saved_as := fname; saved_data := b |}]
      | None => []
      end
  | _, _ => []
  end.

(** The requests that went out, read off the log. *)
Fixpoint requests (evs : list Event) : list Request :=
  match evs with
  | [] => []
  | Fetched rq :: evs' => rq :: requests evs'
  | _ :: evs' => requests evs'
  end.

(** The responses whose body was consumed, read off the log. *)
Fixpoint bodies_read (evs : list Event) : list Response :=
  match evs with
  | [] => []
  | Read_blob res :: evs' => res :: bodies_read evs'
  | _ :: evs' => bodies_read evs'
  end.

(** The values written to [uploadBtn.disabled], in order. *)
Fixpoint disabled_writes (evs : list Event) : list bool :=
  match evs with
  | [] => []
  | Wrote_disabled b :: evs' => b :: disabled_writes evs'
  | _ :: evs' => disabled_writes evs'
  end.

End Dom.
Import Dom.

(* ------------------------------------------------------------------ *)
(** ** Programs over the platform: calls, exceptions, [await] *)

Module Async.

(** The synchronous platform calls of the handler, by result type. *)
Inductive DomCall : Type -> Type :=
| Files_0 : DomCall (option File)
| Set_status (s : jsstring) : DomCall unit
| Set_disabled (b : bool) : DomCall unit
| Console_log (res : Response) : DomCall unit
| Create_object_url (b : Blob) : DomCall Url
| Create_element_a : DomCall Anchor
| Append_child (a : Anchor) : DomCall unit
| Click (a : Anchor) : DomCall unit
| Remove (a : Anchor) : DomCall unit.

(** The two promises the handler awaits. *)
Inductive Promise : Type -> Type :=
| Fetch (rq : Request) : Promise Response
| Res_blob (res : Response) : Promise Blob.

(** A program is a tree: it returns, throws, makes a synchronous call
    and goes on with its outcome, or awaits a promise and goes on, in
    a later turn of the event loop, with the way it settled. *)
Inductive Prog (A : Type) : Type :=
| Ret (a : A)
| Throw (e : JsError)
| Call (X : Type) (c : DomCall X) (k : Outcome X -> Prog A)
| Await (X : Type) (p : Promise X) (k : Outcome X -> Prog A).
Arguments Ret {A} a.
Arguments Throw {A} e.
Arguments Call {A X} c k.
Arguments Await {A X} p k.

(** An outcome turned into a completion: a value is returned, an
    exception is thrown at the point of the call or of the [await]. *)
Definition complete {A} (o : Outcome A) : Prog A :=
  match o with
  | Fulfilled a => Ret a
  | Rejected e => Throw e
  end.

(** A call as a statement, and [await p] as an expression. *)
Definition call {X} (c : DomCall X) : Prog X := Call c complete.
Definition await {X} (p : Promise X) : Prog X := Await p complete.

(** Sequencing: [f] goes on with the value of [p]; an exception of [p]
    skips [f]. *)
Fixpoint bind {A B} (p : Prog A) (f : A -> Prog B) : Prog B :=
  match p with
  | Ret a => f a
  | Throw e => Throw e
  | Call c k => Call c (fun o => bind (k o) f)
  | Await pr k => Await pr (fun o => bind (k o) f)
  end.

(** [try { p } catch (err) { h err }]. *)
Fixpoint try_catch {A} (p : Prog A) (h : JsError -> Prog A) : Prog A :=
  match p with
  | Ret a => Ret a
  | Throw e => h e
  | Call c k => Call c (fun o => try_catch (k o) h)
  | Await pr k => Await pr (fun o => try_catch (k o) h)
  end.

(** [try { p } finally { c }]: [c] runs on every way out of [p], and
    the completion of [p] stands unless [c] throws itself. *)
Fixpoint finally {A} (p : Prog A) (c : Prog unit) : Prog A :=
  match p with
  | Ret a => bind c (fun _ => Ret a)
  | Throw e => bind c (fun _ => Throw e)
  | Call d k => Call d (fun o => finally (k o) c)
  | Await pr k => Await pr (fun o => finally (k o) c)
  end.

(** The method calls of lines 43-49 are the calls that can throw;
    [Faults] says which of them do.  Reads and writes of properties of
    existing elements never throw. *)
Inductive Fallible :=
| In_createObjectURL
| In_createElement
| In_appendChild
| In_click
| In_remove.

Definition Faults := Fallible -> option JsError.

Definition no_fault : Faults := fun _ => None.

(** Where a call is one of the fallible ones. *)
Definition fallible {X} (c : DomCall X) : option Fallible :=
  match c with
  | Create_object_url _ => Some In_createObjectURL
  | Create_element_a => Some In_createElement
  | Append_child _ => Some In_appendChild
  | Click _ => Some In_click
  | Remove _ => Some In_remove
  | _ => None
  end.

(** The exception with which a call ends, when it ends with one. *)
Definition thrown (ft : Faults) {X} (c : DomCall X) : option JsError :=
  match fallible c with
  | Some f => ft f
  | None => None
  end.

(** The value and the effect of a call that does not throw. *)
Definition perform {X} (c : DomCall X) (pg : Page) : X * Page :=
  match c in DomCall X return X * Page with
  | Files_0 => (hd_error (fileInput_files pg), pg)
  | Set_status s => (tt, record (Wrote_status s) (with_status s pg))
  | Set_disabled b => (tt, record (Wrote_disabled b) (with_disabled b pg))
  | Console_log res => (tt, record (Logged res) pg)
  | Create_object_url b =>
      let u := BlobUrl (List.length (object_urls pg)) in
      (u, record (Created_object_url u)
            (with_object_urls (object_urls pg ++ [b]) pg))
  | Create_element_a =>
      let a := {| node := elements_created pg;
                  href := None; download := None |} in
      (a, record (Created_element a)
            (with_elements_created (S (elements_created pg)) pg))
  | Append_child a =>
      (tt, record (Appended a)
             (with_children (body_children pg ++ [a]) pg))
  | Click a =>
      (tt, record (Clicked a)
             (with_downloads (downloads pg ++ started_by_click a pg) pg))
  | Remove a =>
      (tt, record (Removed a)
             (with_children
                (filter (fun c => negb (Nat.eqb (node c) (node a)))
                   (body_children pg)) pg))
  end.

(** One synchronous call against the page.  A call that throws leaves
    the page as it was, but for the log. *)
Definition exec (ft : Faults) {X} (c : DomCall X) (pg : Page)
    : Outcome X * Page :=
  match thrown ft c with
  | Some e => (Rejected e, record (Threw e) pg)
  | None => (Fulfilled (fst (perform c pg)), snd (perform c pg))
  end.

(** Creating a promise is itself a call that the log keeps. *)
Definition announce {X} (p : Promise X) : Event :=
  match p with
  | Fetch rq => Fetched rq
  | Res_blob res => Read_blob res
  end.

(** A rejection surfaces as an exception where the promise is awaited. *)
Definition settled {X} (o : Outcome X) (pg : Page) : Page :=
  match o with
  | Fulfilled _ => pg
  | Rejected e => record (Threw e) pg
  end.

(** A handler suspended at an [await]. *)
Inductive Suspended : Type :=
| Suspend (X : Type) (p : Promise X) (k : Outcome X -> Prog unit).
Arguments Suspend {X} p k.

(** Where a turn of the event loop leaves an [async] function: it has
    returned, it has thrown (its promise is rejected and nobody handles
    it), or it waits for a promise. *)
Inductive Turn : Type :=
| Returned (pg : Page)
| Escaped (e : JsError) (pg : Page)
| Waiting (s : Suspended) (pg : Page).

(** One turn: the program runs to its end or to its next [await]. *)
Fixpoint run_turn (ft : Faults) (p : Prog unit) (pg : Page) : Turn :=
  match p with
  | Ret _ => Returned pg
  | Throw e => Escaped e pg
  | Call c k => let (o, pg') := exec ft c pg in run_turn ft (k o) pg'
  | Await pr k => Waiting (Suspend pr k) (record (announce pr) pg)
  end.

(** The world outside the page during one upload: which calls throw
    and how the server (or the network) answers a request. *)
Record Env := {
  faults : Faults;
  network : Request -> Outcome Response
}.

(** How an awaited promise settles. *)
Definition settle (env : Env) {X} (p : Promise X) : Outcome X :=
  match p in Promise X return Outcome X with
  | Fetch rq => network env rq
  | Res_blob res => blob res
  end.

(** A whole run, every promise settling as [env] says and nothing else
    happening to the page in between. *)
Inductive Final (A : Type) : Type :=
| Finished (a : A) (pg : Page)
| Unhandled (e : JsError) (pg : Page).
Arguments Finished {A} a pg.
Arguments Unhandled {A} e pg.

Fixpoint run {A} (env : Env) (p : Prog A) (pg : Page) : Final A :=
  match p with
  | Ret a => Finished a pg
  | Throw e => Unhandled e pg
  | Call c k =>
      let (o, pg') := exec (faults env) c pg in run env (k o) pg'
  | Await pr k =>
      let o := settle env pr in
      run env (k o) (settled o (record (announce pr) pg))
  end.

Definition final_page {A} (r : Final A) : Page :=
  match r with
  | Finished _ pg => pg
  | Unhandled _ pg => pg
  end.

Declare Scope prog_scope.
Delimit Scope prog_scope with prog.
Notation "x <- p ;; q" := (bind p (fun x => q))
  (at level 61, p at next level, right associativity) : prog_scope.
Notation "p ;; q" := (bind p (fun _ => q))
  (at level 61, right associativity) : prog_scope.

End Async.
Import Async.

(* ------------------------------------------------------------------ *)
(** ** The script *)

Module Script.

Local Open Scope prog_scope.
Local Open Scope N_scope.

(** The five texts shown in [#status], as their UTF-16 code units. *)

(** ファイルを選択してください (line 9). *)
Definition msg_select_file : jsstring :=
  [12501; 12449; 12452; 12523; 12434; 36984; 25246;
   12375; 12390; 12367; 12384; 12373; 12356].

(** 生成中... (line 14). *)
Definition msg_generating : jsstring :=
  [29983; 25104; 20013; 46; 46; 46].

(** エラー: and a space, the head of the template of line 30. *)
Definition msg_error : jsstring :=
  [12456; 12521; 12540; 58; 32].

(** 通信エラー: and a space, the head of the template of line 53. *)
Definition msg_transport_error : jsstring :=
  [36890; 20449; 12456; 12521; 12540; 58; 32].

(** 完了しました (line 51). *)
Definition msg_done : jsstring :=
  [23436; 20102; 12375; 12414; 12375; 12383].

(** Line 19. *)
Definition endpoint : jsstring := lit "http://localhost:7071/api/upload".

(** Lines 16-25: the arguments of the [fetch] call, a POST to the
    endpoint whose body is a form with the one field [file]. *)
Definition upload_request (file : File) : Request :=
  let formData : FormData := [(lit "file", file)] in
  {| url := endpoint; method := lit "POST"; body := formData |}.

(** The test of [if (contentDisposition)]: [null] and the empty string
    are falsy. *)
Definition truthy (v : option jsstring) : bool :=
  match v with
  | Some (_ :: _) => true
  | _ => false
  end.

(** Lines 37-41: the name the download gets, from the selected file
    and the value [headers.get] gave for [content-disposition]. *)
Definition choose_filename (file : File)
    (contentDisposition : option jsstring) : jsstring :=
  let filename := replace (lit ".xlsx") (lit ".md") (name file) in
  if truthy contentDisposition then
    match contentDisposition with
    | Some cd =>
        match match_filename cd with
        | Some group1 => group1
        | None => filename
        end
    | None => filename
    end
  else filename.

(** The listener of line 5.  The two early [return]s (lines 10 and 32)
    are the branches that end where they stand; the one of line 32 sits
    inside the [try], so the [finally] block runs after it. *)
Definition click_handler : Prog unit :=
  file <- call Files_0 ;;
  match file with
  | None =>
      call (Set_status msg_select_file)
  | Some file =>
      call (Set_disabled true) ;;
      call (Set_status msg_generating) ;;
      finally
        (try_catch
           (res <- await (Fetch (upload_request file)) ;;
            call (Console_log res) ;;
            if negb (ok res) then
              call (Set_status (msg_error ++ of_number (status res))) ;;
              call (Set_disabled false)
            else
              blob <- await (Res_blob res) ;;
              let contentDisposition :=
                headers_get res (lit "content-disposition") in
              let filename := choose_filename file contentDisposition in
              url <- call (Create_object_url blob) ;;
              a <- call Create_element_a ;;
              let a := {| node := node a;
                          href := Some url;
                          download := download a |} in
              let a := {| node := node a;
                          href := href a;
                          download := Some filename |} in
              call (Append_child a) ;;
              call (Click a) ;;
              call (Remove a) ;;
              call (Set_status msg_done))
           (fun err =>
              call (Set_status (msg_transport_error ++ message err))))
        (call (Set_disabled false))
  end.

End Script.
Import Script.

Arguments lit : simpl never.
Arguments of_number : simpl never.
Arguments upload_request : simpl never.
Arguments choose_filename : simpl never.
Arguments msg_select_file : simpl never.
Arguments msg_generating : simpl never.
Arguments msg_error : simpl never.
Arguments msg_transport_error : simpl never.
Arguments msg_done : simpl never.

(* ------------------------------------------------------------------ *)
(** ** The event loop *)

Module EventLoop.

(** The page and the handlers that wait for a promise. *)
Record World := { page : Page; waiting : list Suspended }.

Definition after (t : Turn) (others : list Suspended) : World :=
  match t with
  | Returned pg => {| page := pg; waiting := others |}
  | Escaped _ pg => {| page := pg; waiting := others |}
  | Waiting s pg => {| page := pg; waiting := others ++ [s] |}
  end.

(** The outcomes a promise may settle with: any for a request, the
    one the response holds for its body. *)
Definition may_settle {X} (p : Promise X) : Outcome X -> Prop :=
  match p in Promise X return Outcome X -> Prop with
  | Fetch _ => fun _ => True
  | Res_blob res => fun o => o = blob res
  end.

(** One task of the event loop.  The user may change the selection at
    any time; a click reaches the listener only while the button is
    not disabled (a disabled button dispatches no click event); a
    pending promise settles and its handler runs its next turn. *)
Inductive step : World -> World -> Prop :=
| user_selects (fs : list File) (w : World) :
    step w {| page := with_files fs (page w); waiting := waiting w |}
| user_clicks (ft : Faults) (w : World) :
    uploadBtn_disabled (page w) = false ->
    step w (after (run_turn ft click_handler (page w)) (waiting w))
| promise_settles (ft : Faults) (w : World) (before later : list Suspended)
    (X : Type) (p : Promise X) (k : Outcome X -> Prog unit)
    (o : Outcome X) :
    waiting w = before ++ Suspend p k :: later ->
    may_settle p o ->
    step w (after (run_turn ft (k o) (settled o (page w)))
              (before ++ later)).

(** The page as the script finds it: the button enabled, nothing
    pending; and every world some sequence of tasks leads to. *)
Inductive reachable : World -> Prop :=
| loaded (pg : Page) :
    uploadBtn_disabled pg = false ->
    reachable {| page := pg; waiting := [] |}
| next (w w' : World) :
    reachable w -> step w w' -> reachable w'.

(** The uploads in flight: the handlers waiting. *)
Definition in_flight (w : World) : nat := List.length (waiting w).

(** The page when the request goes out: lines 13 and 14 are done. *)
Definition page_at_fetch (file : File) (pg : Page) : Page :=
  record (Fetched (upload_request file))
    (record (Wrote_status msg_generating)
       (with_status msg_generating
          (record (Wrote_disabled true) (with_disabled true pg)))).

(** Three shapes of programs, by which the button is followed through
    a handler.  A [quiet] program awaits nothing. *)
Inductive quiet {A : Type} : Prog A -> Prop :=
| quiet_ret (a : A) : quiet (Ret a)
| quiet_throw (e : JsError) : quiet (Throw e)
| quiet_call_k (X : Type) (c : DomCall X) (k : Outcome X -> Prog A) :
    (forall o, quiet (k o)) -> quiet (Call c k).

(** The one call that enables the button. *)
Definition enables {X} (c : DomCall X) : bool :=
  match c with
  | Set_disabled false => true
  | _ => false
  end.

(** A [closed] program never enables the button. *)
Inductive closed {A : Type} : Prog A -> Prop :=
| closed_ret (a : A) : closed (Ret a)
| closed_throw (e : JsError) : closed (Throw e)
| closed_call_k (X : Type) (c : DomCall X) (k : Outcome X -> Prog A) :
    enables c = false -> (forall o, closed (k o)) -> closed (Call c k)
| closed_await_k (X : Type) (p : Promise X) (k : Outcome X -> Prog A) :
    (forall o, closed (k o)) -> closed (Await p k).

(** A program [keeps_gate] when it awaits nothing any more once it has
    enabled the button. *)
Inductive keeps_gate {A : Type} : Prog A -> Prop :=
| keeps_ret (a : A) : keeps_gate (Ret a)
| keeps_throw (e : JsError) : keeps_gate (Throw e)
| keeps_call_k (X : Type) (c : DomCall X) (k : Outcome X -> Prog A) :
    enables c = false -> (forall o, keeps_gate (k o)) ->
    keeps_gate (Call c k)
| keeps_enable_k (X : Type) (c : DomCall X) (k : Outcome X -> Prog A) :
    (forall o, quiet (k o)) -> keeps_gate (Call c k)
| keeps_await_k (X : Type) (p : Promise X) (k : Outcome X -> Prog A) :
    (forall o, keeps_gate (k o)) -> keeps_gate (Await p k).

(** A suspended handler whose every continuation keeps the gate. *)
Definition gated (s : Suspended) : Prop :=
  match s with
  | Suspend _ k => forall o, keeps_gate (k o)
  end.

(** What holds in every reachable world: one upload at most is in
    flight, and while one is, the button is disabled. *)
Definition gate_invariant (w : World) : Prop :=
  in_flight w <= 1 /\
  (waiting w <> [] -> uploadBtn_disabled (page w) = true) /\
  Forall gated (waiting w).

End EventLoop.
Import EventLoop.

(* ------------------------------------------------------------------ *)
(** ** The clean-up around the request *)

Module Cleanup.

(** The [catch] block of lines 52-53 and the [finally] block of lines
    54-55, as they stand in [click_handler]. *)
Definition catch_block (err : JsError) : Prog unit :=
  call (Set_status (msg_transport_error ++ message err)).

Definition finally_block : Prog unit := call (Set_disabled false).

(** A program that is what is left of a body inside the [try] of line
    21: the body, with the two blocks around it. *)
Definition wrapped (p : Prog unit) : Prop :=
  exists body, p = finally (try_catch body catch_block) finally_block.

(** A suspended handler that is still inside the [try]. *)
Definition cleans_up (s : Suspended) : Prop :=
  match s with
  | Suspend _ k => forall o, wrapped (k o)
  end.

(** The object URLs and the elements of a page are fresh for it: an
    element attached to the document was created before, so its
    identity is below the count of elements created. *)
Definition children_known (pg : Page) : Prop :=
  Forall (fun c => node c < elements_created pg) (body_children pg).

(** The anchor built in lines 44-46 on page [pg] for a download. *)
Definition download_anchor (pg : Page) (fname : jsstring) : Anchor :=
  {| node := elements_created pg;
     href := Some (BlobUrl (List.length (object_urls pg)));
     download := Some fname |}.

End Cleanup.
Import Cleanup.

(* ------------------------------------------------------------------ *)
(** ** The fallback name as the specification words it *)

Module Spec.

(** [s.endsWith(pat)]. *)
Definition ends_with (pat s : jsstring) : bool :=
  starts_with (rev pat) (rev s).

(** The name with its [.xlsx] suffix replaced by [.md]; a name without
    that suffix has nothing to replace. *)
Definition replace_xlsx_suffix (name : jsstring) : jsstring :=
  if ends_with (lit ".xlsx") name
  then firstn (List.length name - List.length (lit ".xlsx")) name
       ++ lit ".md"
  else name.

End Spec.

(* ------------------------------------------------------------------ *)
(** ** Concrete pages, files and servers *)

Module Examples.

Import Byte.

(** A page just loaded, with the given selection. *)
Definition fresh_page (files : list File) : Page :=
  {| status_textContent := [];
     uploadBtn_disabled := false;
     fileInput_files := files;
     body_children := [];
     object_urls := [];
     elements_created := 0;
     downloads := [];
     log := [] |}.

(** A small payload: the bytes of [# hi]. *)
Definition payload : Blob := [x23; x20; x68; x69].

Definition report_xlsx : File :=
  {| name := lit "report.xlsx"; file_data := [x50; x4b; x03; x04] |}.

Definition notes_txt : File :=
  {| name := lit "notes.txt"; file_data := [x68; x69] |}.

(** A name in which [.xlsx] occurs twice. *)
Definition twice_xlsx : File :=
  {| name := lit "a.xlsx.xlsx"; file_data := [x50; x4b; x03; x04] |}.

(** The header value [filename="out.md"]. *)
Definition filename_out_md : jsstring :=
  lit "filename=" ++ [dquote] ++ lit "out.md" ++ [dquote].

(** Responses: a 200 without headers, a 200 with the header above, a
    500, and a 200 whose body cannot be read. *)
Definition plain_200 : Response :=
  {| status := 200; headers_get := fun _ => None;
     blob := Fulfilled payload |}.

Definition named_200 : Response :=
  {| status := 200;
     headers_get := fun h =>
       if JsString.eqb h (lit "content-disposition")
       then Some filename_out_md else None;
     blob := Fulfilled payload |}.

Definition error_500 : Response :=
  {| status := 500; headers_get := fun _ => None;
     blob := Fulfilled [] |}.

Definition broken_200 : Response :=
  {| status := 200; headers_get := fun _ => None;
     blob := Rejected {| message := lit "body stream interrupted" |} |}.

(** A server that answers every request with [res]; no call throws. *)
Definition server (res : Response) : Env :=
  {| faults := no_fault; network := fun _ => Fulfilled res |}.

(** No network: [fetch] rejects. *)
Definition offline : Env :=
  {| faults := no_fault;
     network := fun _ => Rejected {| message := lit "offline" |} |}.

(** [document.body.appendChild] throws. *)
Definition no_body : Env :=
  {| faults := fun f =>
       match f with
       | In_appendChild => Some {| message := lit "body is null" |}
       | _ => None
       end;
     network := fun _ => Fulfilled plain_200 |}.

(** The world after one click on a fresh page with a file selected. *)
Definition one_click : World :=
  after (run_turn no_fault click_handler (fresh_page [report_xlsx])) [].

(** A page on which an earlier script run left an anchor attached. *)
Definition page_with_child : Page :=
  {| status_textContent := [];
     uploadBtn_disabled := false;
     fileInput_files := [report_xlsx];
     body_children := [ {| node := 0; href := None; download := None |} ];
     object_urls := [];
     elements_created := 1;
     downloads := [];
     log := [] |}.

(** [a.click()] throws; everything before it works. *)
Definition click_blocked : Env :=
  {| faults := fun f =>
       match f with
       | In_click => Some {| message := lit "click blocked" |}
       | _ => None
       end;
     network := fun _ => Fulfilled plain_200 |}.

(** The download works up to [a.remove()], which throws. *)
Definition remove_fails : Env :=
  {| faults := fun f =>
       match f with
       | In_remove => Some {| message := lit "remove failed" |}
       | _ => None
       end;
     network := fun _ => Fulfilled plain_200 |}.

(** Two files selected at once. *)
Definition two_files : list File := [report_xlsx; notes_txt].

End Examples.

(* ------------------------------------------------------------------ *)
(** ** Facts about the string operations *)

Section StringFacts.

Implicit Types (pat rep s t pre post g : jsstring).

Lemma starts_with_app pat s : starts_with pat (pat ++ s) = true.
Proof.
  induction pat as [|c pat IH]; simpl; [reflexivity|].
  now rewrite N.eqb_refl, IH.
Qed.

Lemma starts_with_split pat s :
  starts_with pat s = true -> s = pat ++ skipn (List.length pat) s.
Proof.
  revert s; induction pat as [|c pat IH]; intros [|d s]; simpl;
    try reflexivity; try discriminate.
  intros H; apply andb_prop in H as [Hc Hs].
  apply N.eqb_eq in Hc; subst d. now rewrite <- IH.
Qed.

Lemma includes_here pat s :
  starts_with pat s = true -> includes pat s = true.
Proof.
  destruct s; simpl; intros ->; reflexivity.
Qed.

Lemma includes_app pre pat post : includes pat (pre ++ pat ++ post) = true.
Proof.
  induction pre as [|c pre IH].
  - cbn [app]. apply includes_here, starts_with_app.
  - simpl. rewrite IH. apply orb_true_r.
Qed.

Lemma includes_head pat s :
  includes pat s = false -> starts_with pat s = false.
Proof.
  destruct s; simpl; intros H; apply orb_false_elim in H; tauto.
Qed.

(** A string that does not hold the pattern comes back unchanged. *)
Lemma replace_absent pat rep s :
  includes pat s = false -> replace pat rep s = s.
Proof.
  induction s as [|c s IH]; intros H.
  - simpl. now rewrite (includes_head _ _ H).
  - pose proof (includes_head _ _ H) as Hh.
    simpl in H. apply orb_false_elim in H as [_ H].
    cbn [replace]. rewrite Hh, IH by assumption. reflexivity.
Qed.

Lemma replace_here pat rep s :
  starts_with pat s = true ->
  replace pat rep s = rep ++ skipn (List.length pat) s.
Proof.
  destruct s; simpl; intros ->; reflexivity.
Qed.

(** The occurrence replaced is the leftmost one. *)
Lemma replace_leftmost pat rep pre post :
  (forall j, j < List.length pre ->
             starts_with pat (skipn j (pre ++ pat ++ post)) = false) ->
  replace pat rep (pre ++ pat ++ post) = pre ++ rep ++ post.
Proof.
  induction pre as [|c pre IH]; intros Hleft.
  - cbn [app]. rewrite replace_here by apply starts_with_app.
    rewrite skipn_app, skipn_all, Nat.sub_diag. reflexivity.
  - change ((c :: pre) ++ pat ++ post) with (c :: (pre ++ pat ++ post)).
    assert (H0 : starts_with pat (c :: (pre ++ pat ++ post)) = false)
      by (apply (Hleft 0); simpl; lia).
    cbn [replace]. rewrite H0.
    rewrite IH; [reflexivity|].
    intros j Hj. apply (Hleft (S j)). simpl; lia.
Qed.

Lemma before_last_quote_split r p :
  before_last_quote r = Some p ->
  exists rest, r = p ++ dquote :: rest.
Proof.
  revert p; induction r as [|c r IH]; intros p; simpl; [discriminate|].
  destruct (before_last_quote r) as [q|] eqn:E.
  - intros [= <-]. destruct (IH q eq_refl) as [rest ->].
    now exists rest.
  - destruct (N.eqb c dquote) eqn:Ec; [|discriminate].
    intros [= <-]. apply N.eqb_eq in Ec; subst c. now exists r.
Qed.

Lemma dot_run_split s :
  exists rest, s = dot_run s ++ rest /\
               forallb (fun c => negb (line_terminator c)) (dot_run s) = true.
Proof.
  induction s as [|c s (rest & Hs & Hall)]; simpl.
  - now exists [].
  - destruct (line_terminator c) eqn:E.
    + now exists (c :: s).
    + exists rest. simpl. rewrite E, Hall. split; [now rewrite <- Hs | reflexivity].
Qed.

Lemma forallb_app_l (f : code_unit -> bool) s t :
  forallb f (s ++ t) = true -> forallb f s = true.
Proof.
  rewrite forallb_app. intros H; apply andb_prop in H; tauto.
Qed.

(** What a successful match says about the subject: the literal head,
    then the group, one character at least and no line terminator in
    it, then a double quote. *)
Lemma match_filename_sound s g :
  match_filename s = Some g ->
  exists pre post,
    s = pre ++ filename_eq_quote ++ g ++ dquote :: post /\
    g <> [] /\
    forallb (fun c => negb (line_terminator c)) g = true.
Proof.
  induction s as [|c s IH].
  - simpl. discriminate.
  - cbn [match_filename].
    destruct (match_here (c :: s)) as [g'|] eqn:E.
    + intros [= ->]. unfold match_here in E.
      destruct (starts_with filename_eq_quote (c :: s)) eqn:Hs; [|discriminate].
      apply starts_with_split in Hs.
      remember (skipn (List.length filename_eq_quote) (c :: s)) as tl.
      unfold group_then_quote in E.
      destruct (before_last_quote (dot_run tl)) as [[|d p]|] eqn:Eb;
        try discriminate.
      injection E as <-.
      apply before_last_quote_split in Eb as [rest Hrun].
      destruct (dot_run_split tl) as (rest' & Htl & Hall).
      exists [], (rest ++ rest'). split; [|split].
      * cbn [app]. rewrite Hs at 1. f_equal.
        rewrite Htl, Hrun, <- app_assoc. reflexivity.
      * discriminate.
      * rewrite Hrun in Hall. now apply forallb_app_l in Hall.
    + intros H. destruct (IH H) as (pre & post & -> & Hne & Hall).
      now exists (c :: pre), post.
Qed.

End StringFacts.

(* ------------------------------------------------------------------ *)
(** ** Runs, combinator by combinator *)

Section RunFacts.

Context {A B : Type}.
Variable env : Env.

Lemma run_call X (c : DomCall X) pg :
  run env (call c) pg =
  match thrown (faults env) c with
  | Some e => Unhandled e (record (Threw e) pg)
  | None => Finished (fst (perform c pg)) (snd (perform c pg))
  end.
Proof.
  unfold call, exec. cbn. unfold exec.
  destruct (thrown (faults env) c); reflexivity.
Qed.

Lemma run_await X (p : Promise X) pg :
  run env (await p) pg =
  match settle env p with
  | Fulfilled x => Finished x (record (announce p) pg)
  | Rejected e => Unhandled e (record (Threw e) (record (announce p) pg))
  end.
Proof.
  unfold await. cbn. destruct (settle env p); reflexivity.
Qed.

Lemma run_bind (p : Prog A) (f : A -> Prog B) pg :
  run env (bind p f) pg =
  match run env p pg with
  | Finished a pg' => run env (f a) pg'
  | Unhandled e pg' => Unhandled e pg'
  end.
Proof.
  revert pg; induction p as [a|e|X c k IH|X pr k IH]; intros pg; cbn;
    try reflexivity.
  - destruct (exec (faults env) c pg) as [o pg']. apply IH.
  - apply IH.
Qed.

Lemma run_try_catch (p : Prog A) (h : JsError -> Prog A) pg :
  run env (try_catch p h) pg =
  match run env p pg with
  | Finished a pg' => Finished a pg'
  | Unhandled e pg' => run env (h e) pg'
  end.
Proof.
  revert pg; induction p as [a|e|X c k IH|X pr k IH]; intros pg; cbn;
    try reflexivity.
  - destruct (exec (faults env) c pg) as [o pg']. apply IH.
  - apply IH.
Qed.

End RunFacts.

Section RunFinally.

Context {A : Type}.
Variable env : Env.

Lemma run_finally (p : Prog A) (c : Prog unit) pg :
  run env (finally p c) pg =
  match run env p pg with
  | Finished a pg' =>
      match run env c pg' with
      | Finished _ pg'' => Finished a pg''
      | Unhandled e pg'' => Unhandled e pg''
      end
  | Unhandled e pg' =>
      match run env c pg' with
      | Finished _ pg'' => Unhandled e pg''
      | Unhandled e' pg'' => Unhandled e' pg''
      end
  end.
Proof.
  revert pg; induction p as [a|e|X d k IH|X pr k IH]; intros pg; cbn.
  - rewrite run_bind. destruct (run env c pg); reflexivity.
  - rewrite run_bind. destruct (run env c pg); reflexivity.
  - destruct (exec (faults env) d pg) as [o pg']. apply IH.
  - apply IH.
Qed.

End RunFinally.

Section RunByTurns.

Variable env : Env.

(** A run is a chain of turns: each one ends the handler or leaves it
    waiting for a promise, which then settles as [env] says. *)
Lemma run_by_turns (p : Prog unit) pg :
  run env p pg =
  match run_turn (faults env) p pg with
  | Returned pg' => Finished tt pg'
  | Escaped e pg' => Unhandled e pg'
  | Waiting (Suspend pr k) pg' =>
      run env (k (settle env pr)) (settled (settle env pr) pg')
  end.
Proof.
  revert pg; induction p as [[]|e|X c k IH|X pr k _]; intros pg; cbn;
    try reflexivity.
  destruct (exec (faults env) c pg) as [o pg']. apply IH.
Qed.

End RunByTurns.

(* ------------------------------------------------------------------ *)
(** ** Turns of the event loop *)

Section GateFacts.

Context {A : Type}.

Lemma quiet_complete (o : Outcome A) : quiet (complete o).
Proof. destruct o; constructor. Qed.

Lemma quiet_call (c : DomCall A) : quiet (call c).
Proof. constructor. apply quiet_complete. Qed.

Lemma closed_complete (o : Outcome A) : closed (complete o).
Proof. destruct o; constructor. Qed.

Lemma closed_await (p : Promise A) : closed (await p).
Proof. constructor. apply closed_complete. Qed.

Lemma closed_call (c : DomCall A) : enables c = false -> closed (call c).
Proof. intros H. constructor; [exact H | apply closed_complete]. Qed.

Lemma keeps_call (c : DomCall A) : keeps_gate (call c).
Proof. apply keeps_enable_k. apply quiet_complete. Qed.

Lemma keeps_quiet (p : Prog A) : quiet p -> keeps_gate p.
Proof.
  induction 1; [constructor | constructor | now apply keeps_enable_k].
Qed.

Lemma quiet_try_catch (p : Prog A) (h : JsError -> Prog A) :
  quiet p -> (forall e, quiet (h e)) -> quiet (try_catch p h).
Proof.
  intros Hp Hh. induction Hp; cbn; auto; constructor; auto.
Qed.

Lemma keeps_try_catch (p : Prog A) (h : JsError -> Prog A) :
  keeps_gate p -> (forall e, quiet (h e)) -> keeps_gate (try_catch p h).
Proof.
  intros Hp Hh. induction Hp; cbn.
  - constructor.
  - apply keeps_quiet, Hh.
  - apply keeps_call_k; auto.
  - apply keeps_enable_k. intros o. now apply quiet_try_catch.
  - apply keeps_await_k; auto.
Qed.

End GateFacts.

Section GateBind.

Context {A B : Type}.

Lemma quiet_bind (p : Prog A) (f : A -> Prog B) :
  quiet p -> (forall a, quiet (f a)) -> quiet (bind p f).
Proof.
  intros Hp Hf. induction Hp; cbn; auto; constructor; auto.
Qed.

Lemma keeps_bind (p : Prog A) (f : A -> Prog B) :
  closed p -> (forall a, keeps_gate (f a)) -> keeps_gate (bind p f).
Proof.
  intros Hp Hf. induction Hp; cbn; auto.
  - constructor.
  - apply keeps_call_k; auto.
  - apply keeps_await_k; auto.
Qed.

End GateBind.

Section GateFinally.

Context {A : Type}.

Lemma quiet_finally (p : Prog A) (c : Prog unit) :
  quiet p -> quiet c -> quiet (finally p c).
Proof.
  intros Hp Hc. induction Hp; cbn.
  - apply quiet_bind; [exact Hc | constructor].
  - apply quiet_bind; [exact Hc | constructor].
  - constructor; auto.
Qed.

Lemma keeps_finally (p : Prog A) (c : Prog unit) :
  keeps_gate p -> quiet c -> keeps_gate (finally p c).
Proof.
  intros Hp Hc. induction Hp; cbn.
  - apply keeps_quiet, quiet_bind; [exact Hc | constructor].
  - apply keeps_quiet, quiet_bind; [exact Hc | constructor].
  - apply keeps_call_k; auto.
  - apply keeps_enable_k. intros o. now apply quiet_finally.
  - apply keeps_await_k; auto.
Qed.

End GateFinally.

Section CleanupFacts.

Variable ft : Faults.

(** A turn of a program inside the [try]: it ends with the button
    enabled and no exception leaving it, or it is suspended, still
    inside the [try]. *)
Lemma wrapped_turn (body : Prog unit) pg :
  match run_turn ft (finally (try_catch body catch_block) finally_block) pg
  with
  | Returned pg' => uploadBtn_disabled pg' = false
  | Escaped _ _ => False
  | Waiting s _ => cleans_up s
  end.
Proof.
  revert pg; induction body as [[]|e|X c k IH|X pr k _]; intros pg.
  - reflexivity.
  - reflexivity.
  - cbn [finally try_catch run_turn].
    destruct (exec ft c pg) as [o pg']. apply IH.
  - cbn. intros o. exists (k o). reflexivity.
Qed.

End CleanupFacts.

Arguments bind : simpl never.
Arguments try_catch : simpl never.
Arguments finally : simpl never.
Arguments call : simpl never.
Arguments await : simpl never.
Arguments run : simpl never.

(* ------------------------------------------------------------------ *)
(** ** Runs of the handler *)

(** [run_step]: one combinator of the program under [run] is replaced
    by its meaning.  [run_with ask] goes through the program, calling
    [ask] wherever the run depends on the environment, before anything
    else is reduced. *)
Ltac run_step :=
  first [ rewrite run_finally | rewrite run_try_catch | rewrite run_bind
        | rewrite run_call | rewrite run_await ].

Ltac run_with ask :=
  repeat (first [ ask
                | run_step; cbn [thrown fallible settle]; try ask ];
          cbn).

(** [ask_env env]: a case analysis on what the environment decides next
    (the network, the status, the body, a call that throws). *)
Ltac ask_env env :=
  match goal with
  | |- context [network env ?r] => destruct (network env r) eqn:?
  | |- context [faults env ?f] => destruct (faults env f) eqn:?
  | |- context [negb (ok ?r)] => destruct (ok r) eqn:?
  | |- context [match blob ?r with _ => _ end] => destruct (blob r) eqn:?
  end.

(** [flat_log]: the log of the final page as the initial log followed
    by the list of the new events. *)
Ltac flat_log := cbn; repeat rewrite <- app_assoc; cbn [app].

Section Runs.

Variable env : Env.
Variable pg : Page.

Lemma nth_error_last (A : Type) (l : list A) (x : A) :
  nth_error (l ++ [x]) (List.length l) = Some x.
Proof.
  rewrite nth_error_app2, Nat.sub_diag by lia. reflexivity.
Qed.

Lemma run_no_file :
  fileInput_files pg = [] ->
  run env click_handler pg =
  Finished tt (record (Wrote_status msg_select_file)
                 (with_status msg_select_file pg)).
Proof.
  intros Hf. unfold click_handler.
  run_with ltac:(rewrite Hf). reflexivity.
Qed.

Lemma run_rejected file rest e :
  fileInput_files pg = file :: rest ->
  network env (upload_request file) = Rejected e ->
  exists pg',
    run env click_handler pg = Finished tt pg' /\
    status_textContent pg' = msg_transport_error ++ message e /\
    uploadBtn_disabled pg' = false /\
    downloads pg' = downloads pg /\
    log pg' = log pg ++
      [Wrote_disabled true; Wrote_status msg_generating;
       Fetched (upload_request file); Threw e;
       Wrote_status (msg_transport_error ++ message e);
       Wrote_disabled false].
Proof.
  intros Hf Hn. unfold click_handler.
  run_with ltac:(first [rewrite Hf | rewrite Hn]).
  eexists. split; [reflexivity|].
  split; [reflexivity|]. split; [reflexivity|]. split; [reflexivity|].
  flat_log. reflexivity.
Qed.

Lemma run_http_error file rest res :
  fileInput_files pg = file :: rest ->
  network env (upload_request file) = Fulfilled res ->
  ok res = false ->
  exists pg',
    run env click_handler pg = Finished tt pg' /\
    status_textContent pg' = msg_error ++ of_number (status res) /\
    uploadBtn_disabled pg' = false /\
    downloads pg' = downloads pg /\
    log pg' = log pg ++
      [Wrote_disabled true; Wrote_status msg_generating;
       Fetched (upload_request file); Logged res;
       Wrote_status (msg_error ++ of_number (status res));
       Wrote_disabled false; Wrote_disabled false].
Proof.
  intros Hf Hn Hok. unfold click_handler.
  run_with ltac:(first [rewrite Hf | rewrite Hn | rewrite Hok]).
  eexists. split; [reflexivity|].
  split; [reflexivity|]. split; [reflexivity|]. split; [reflexivity|].
  flat_log. reflexivity.
Qed.

Lemma run_success file rest res b :
  fileInput_files pg = file :: rest ->
  network env (upload_request file) = Fulfilled res ->
  ok res = true ->
  blob res = Fulfilled b ->
  (forall f, faults env f = None) ->
  exists pg',
    run env click_handler pg = Finished tt pg' /\
    downloads pg' = downloads pg ++
      [ {| saved_as :=
             choose_filename file
               (headers_get res (lit "content-disposition"));
           saved_data := b |} ] /\
    status_textContent pg' = msg_done /\
    uploadBtn_disabled pg' = false.
Proof.
  intros Hf Hn Hok Hb Hft. unfold click_handler.
  run_with ltac:(first [rewrite Hf | rewrite Hn | rewrite Hok
                       | rewrite Hb | rewrite Hft]).
  eexists. split; [reflexivity|]. cbn.
  rewrite nth_error_last. auto.
Qed.

(** Whatever the environment does, the handler comes to its end, no
    exception leaves it, and with a file selected the button is
    enabled at that end. *)
Lemma run_ends file rest :
  fileInput_files pg = file :: rest ->
  exists pg',
    run env click_handler pg = Finished tt pg' /\
    uploadBtn_disabled pg' = false.
Proof.
  intros Hf. unfold click_handler.
  run_with ltac:(first [rewrite Hf | ask_env env]);
    eexists; split; reflexivity.
Qed.

(** After a response with a 2xx status, an exception thrown anywhere
    ends in the [catch] block; a body that cannot be read and a call
    that throws do end in an exception thrown. *)
Lemma run_caught file rest res :
  fileInput_files pg = file :: rest ->
  network env (upload_request file) = Fulfilled res ->
  ok res = true ->
  exists pg' evs,
    run env click_handler pg = Finished tt pg' /\
    log pg' = log pg ++ evs /\
    uploadBtn_disabled pg' = false /\
    (forall e, In (Threw e) evs ->
               status_textContent pg' = msg_transport_error ++ message e) /\
    (forall e, blob res = Rejected e -> In (Threw e) evs) /\
    (forall b f e, blob res = Fulfilled b -> faults env f = Some e ->
                   exists e', In (Threw e') evs).
Proof.
  intros Hf Hn Hok. unfold click_handler.
  run_with ltac:(first [rewrite Hf | rewrite Hn | rewrite Hok
                       | ask_env env]);
    eexists; eexists; (split; [reflexivity|]);
    (split; [flat_log; reflexivity|]); (split; [reflexivity|]);
    (split; [|split]).
  all: try (intros e' HIn; cbn in HIn;
            repeat (destruct HIn as [HIn|HIn]; try discriminate HIn);
            try contradiction; injection HIn as <-; reflexivity).
  all: try (intros e' Hbr;
            first [ discriminate Hbr
                  | injection Hbr as <-; cbn; tauto ]).
  all: intros b' f e' Hb' Hfe;
    first [ discriminate Hb'
          | match goal with
            | H : faults _ _ = Some ?e0 |- _ => exists e0; cbn; tauto
            end
          | destruct f; congruence ].
Qed.

End Runs.


(* ------------------------------------------------------------------ *)
(** ** Turns of the handler and the gate *)

Section Turns.

Variable ft : Faults.

Lemma run_turn_bind_call X (c : DomCall X) (f : X -> Prog unit) pg :
  run_turn ft (bind (call c) f) pg =
  match thrown ft c with
  | Some e => Escaped e (record (Threw e) pg)
  | None => run_turn ft (f (fst (perform c pg))) (snd (perform c pg))
  end.
Proof.
  unfold call, bind. cbn [run_turn]. unfold exec.
  destruct (thrown ft c); reflexivity.
Qed.

Lemma run_turn_call (c : DomCall unit) pg :
  run_turn ft (call c) pg =
  match thrown ft c with
  | Some e => Escaped e (record (Threw e) pg)
  | None => Returned (snd (perform c pg))
  end.
Proof.
  unfold call. cbn [run_turn]. unfold exec.
  destruct (thrown ft c); reflexivity.
Qed.

(** Only [uploadBtn.disabled = false] enables the button. *)
Lemma exec_keeps_disabled X (c : DomCall X) pg :
  enables c = false ->
  uploadBtn_disabled pg = true ->
  uploadBtn_disabled (snd (exec ft c pg)) = true.
Proof.
  intros Hc Hd. unfold exec. destruct (thrown ft c); [exact Hd|].
  destruct c; cbn; try exact Hd.
  destruct b; [reflexivity | discriminate Hc].
Qed.

Lemma quiet_turn (p : Prog unit) pg :
  quiet p ->
  match run_turn ft p pg with
  | Waiting _ _ => False
  | _ => True
  end.
Proof.
  intros Hp; revert pg; induction Hp as [a|e|X c k _ IH]; intros pg;
    cbn [run_turn]; try exact I.
  destruct (exec ft c pg) as [o pg']. apply IH.
Qed.

(** A program that keeps the gate, started with the button disabled,
    is suspended only with the button disabled, and what it goes on
    with keeps the gate. *)
Lemma keeps_turn (p : Prog unit) pg :
  keeps_gate p ->
  uploadBtn_disabled pg = true ->
  match run_turn ft p pg with
  | Waiting s pg' => uploadBtn_disabled pg' = true /\ gated s
  | _ => True
  end.
Proof.
  intros Hp; revert pg;
    induction Hp as [a|e|X c k Hc _ IH|X c k Hq|X pr k Hk _];
    intros pg Hd; cbn [run_turn]; try exact I.
  - pose proof (exec_keeps_disabled c pg Hc Hd) as Hd'.
    destruct (exec ft c pg) as [o pg']. now apply IH.
  - destruct (exec ft c pg) as [o pg'].
    pose proof (quiet_turn pg' (Hq o)) as Hw.
    destruct (run_turn ft (k o) pg'); [exact I | exact I | contradiction].
  - split; [exact Hd | exact Hk].
Qed.

End Turns.

(** [keeps]: the gate followed through the combinators of a program. *)
Ltac keeps :=
  repeat first
    [ apply keeps_finally; [|apply quiet_call]
    | apply keeps_try_catch; [|intros ?; apply quiet_call]
    | apply keeps_bind; [first [apply closed_await
                               | apply closed_complete
                               | apply closed_call; reflexivity]|intros ?]
    | apply keeps_call ].

Section HandlerTurns.

Variable ft : Faults.

(** With a file selected, the first turn of the handler ends at the
    [await] of line 22, and what follows keeps the gate. *)
Lemma click_suspends pg file rest :
  fileInput_files pg = file :: rest ->
  exists k,
    run_turn ft click_handler pg =
    Waiting (Suspend (Fetch (upload_request file)) k)
      (page_at_fetch file pg) /\
    forall o, keeps_gate (k o).
Proof.
  intros Hf. unfold click_handler. rewrite run_turn_bind_call.
  cbn [thrown fallible perform fst snd]. rewrite Hf. cbn [hd_error].
  rewrite run_turn_bind_call. cbn [thrown fallible perform fst snd].
  rewrite run_turn_bind_call. cbn [thrown fallible perform fst snd].
  eexists. split; [reflexivity|].
  intros o. cbv beta. keeps.
  match goal with
  | |- context [negb (ok ?r)] => destruct (negb (ok r))
  end.
  - keeps.
  - keeps.
Qed.

(** The first turn of the handler: it returns at line 10 without a
    write to the button, or it is suspended at line 22 with the button
    disabled. *)
Lemma click_turn pg :
  match run_turn ft click_handler pg with
  | Returned pg' => uploadBtn_disabled pg' = uploadBtn_disabled pg
  | Escaped _ _ => False
  | Waiting s pg' => uploadBtn_disabled pg' = true /\ gated s
  end.
Proof.
  destruct (fileInput_files pg) as [|file rest] eqn:Hf.
  - unfold click_handler. rewrite run_turn_bind_call.
    cbn [thrown fallible perform fst snd]. rewrite Hf. cbn [hd_error].
    rewrite run_turn_call. reflexivity.
  - destruct (click_suspends pg Hf) as (k & -> & Hk).
    split; [reflexivity | exact Hk].
Qed.

End HandlerTurns.

Section Invariant.

Lemma settled_disabled X (o : Outcome X) pg :
  uploadBtn_disabled (settled o pg) = uploadBtn_disabled pg.
Proof. destruct o; reflexivity. Qed.

Lemma gate_invariant_step w w' :
  gate_invariant w -> step w w' -> gate_invariant w'.
Proof.
  intros (Hlen & Hdis & Hall) Hstep. unfold gate_invariant, in_flight in *.
  destruct Hstep as [fs w|ft w Hen|ft w before later X p k o Hw Hset].
  - cbn. auto.
  - destruct (waiting w) as [|s l] eqn:Ew.
    2:{ rewrite Hdis in Hen by discriminate. discriminate. }
    pose proof (click_turn ft (page w)) as Ht.
    destruct (run_turn ft click_handler (page w)) as [pg'|e pg'|s pg'];
      cbn.
    + repeat split; [lia | congruence | constructor].
    + contradiction.
    + destruct Ht as [Hd Hg]. repeat split; [lia | auto | auto].
  - rewrite Hw in *. rewrite length_app in Hlen. cbn in Hlen.
    destruct before; [|cbn in Hlen; lia].
    destruct later; [|cbn in Hlen; lia].
    cbn [app] in *. apply Forall_inv in Hall. cbn in Hall.
    assert (Hd : uploadBtn_disabled (settled o (page w)) = true).
    { rewrite settled_disabled. apply Hdis. discriminate. }
    pose proof (keeps_turn ft (settled o (page w)) (Hall o) Hd) as Ht.
    destruct (run_turn ft (k o) (settled o (page w))) as [pg'|e pg'|s pg'];
      cbn.
    + repeat split; [lia | congruence | constructor].
    + repeat split; [lia | congruence | constructor].
    + destruct Ht as [Hd' Hg]. repeat split; [lia | auto | auto].
Qed.

Lemma reachable_gate_invariant w : reachable w -> gate_invariant w.
Proof.
  induction 1 as [pg Hen|w w' _ IH Hstep].
  - repeat split; cbn; [lia | congruence | constructor].
  - exact (gate_invariant_step IH Hstep).
Qed.

End Invariant.

(* ------------------------------------------------------------------ *)
(** ** Helpers for the properties *)

Section Helpers.

Local Open Scope N_scope.

(** [res.ok] is the 2xx range. *)
Lemma ok_2xx res : 200 <= status res <= 299 -> ok res = true.
Proof.
  intros [Hlo Hhi]. unfold ok.
  apply andb_true_intro; split; now apply N.leb_le.
Qed.

Lemma not_ok_outside res :
  status res < 200 \/ 299 < status res -> ok res = false.
Proof.
  intros H. unfold ok. apply andb_false_iff.
  destruct H as [H|H]; [left | right]; now apply N.leb_gt.
Qed.

Lemma includes_tail (m pre : jsstring) : includes m (pre ++ m) = true.
Proof.
  rewrite <- (app_nil_r m) at 2. apply includes_app.
Qed.

(** With a header whose value matches, the name is group 1. *)
Lemma choose_filename_match file cd g :
  match_filename cd = Some g ->
  choose_filename file (Some cd) = g.
Proof.
  intros Hm. unfold choose_filename. destruct cd as [|c cd].
  - discriminate Hm.
  - cbn [truthy]. now rewrite Hm.
Qed.

(** Without a header, or with one that does not match, the name is
    what [replace] makes of the name of the file. *)
Lemma choose_filename_fallback file v :
  v = None \/ (exists cd, v = Some cd /\ match_filename cd = None) ->
  choose_filename file v = replace (lit ".xlsx") (lit ".md") (name file).
Proof.
  intros [->|(cd & -> & Hm)]; unfold choose_filename.
  - reflexivity.
  - rewrite Hm. destruct (truthy (Some cd)); reflexivity.
Qed.

Lemma requests_app evs evs' :
  requests (evs ++ evs') = requests evs ++ requests evs'.
Proof.
  induction evs as [|ev evs IH]; [reflexivity|].
  destruct ev; cbn; now rewrite ?IH.
Qed.

Lemma bodies_read_app evs evs' :
  bodies_read (evs ++ evs') = bodies_read evs ++ bodies_read evs'.
Proof.
  induction evs as [|ev evs IH]; [reflexivity|].
  destruct ev; cbn; now rewrite ?IH.
Qed.

Lemma disabled_writes_app evs evs' :
  disabled_writes (evs ++ evs') =
  disabled_writes evs ++ disabled_writes evs'.
Proof.
  induction evs as [|ev evs IH]; [reflexivity|].
  destruct ev; cbn; now rewrite ?IH.
Qed.

End Helpers.

(* ------------------------------------------------------------------ *)
(** ** The name of the download *)

Import Examples.

(** C1, as stated, fails on a name in which [.xlsx] occurs before the
    suffix.  The file [a.xlsx.xlsx] is selected and the server answers
    200 without a [content-disposition] header: the download is called
    [a.md.xlsx], where replacing the [.xlsx] suffix by [.md] gives
    [a.xlsx.md]. *)
Lemma fallback_is_not_suffix_replacement :
  map saved_as
    (downloads
       (final_page
          (run (server plain_200) click_handler (fresh_page [twice_xlsx]))))
  = [lit "a.md.xlsx"] /\
  Spec.replace_xlsx_suffix (name twice_xlsx) = lit "a.xlsx.md" /\
  map saved_as
    (downloads
       (final_page
          (run (server plain_200) click_handler (fresh_page [twice_xlsx]))))
  <> [Spec.replace_xlsx_suffix (name twice_xlsx)].
Proof.
  split; [vm_compute; reflexivity|].
  split; [vm_compute; reflexivity|].
  vm_compute. discriminate.
Qed.

(** C1 (amended).  After a 2xx response whose body is read, one file is
    downloaded, with the body as content.  Its name is group 1 of the
    match of [/filename="(.+)"/] on the [content-disposition] header
    when there is such a header and it matches.  Otherwise it is the
    name of the selected file with the leftmost occurrence of [.xlsx],
    wherever it stands, replaced by [.md], and that name unchanged when
    [.xlsx] does not occur in it. *)
Theorem download_filename env pg file rest res b :
  fileInput_files pg = file :: rest ->
  network env (upload_request file) = Fulfilled res ->
  (200 <= status res <= 299)%N ->
  blob res = Fulfilled b ->
  (forall f, faults env f = None) ->
  exists pg' fname,
    run env click_handler pg = Finished tt pg' /\
    downloads pg' =
      downloads pg ++ [ {| saved_as := fname; saved_data := b |} ] /\
    (forall cd g,
        headers_get res (lit "content-disposition") = Some cd ->
        match_filename cd = Some g ->
        fname = g) /\
    (headers_get res (lit "content-disposition") = None \/
     (exists cd, headers_get res (lit "content-disposition") = Some cd /\
                 match_filename cd = None) ->
     (includes (lit ".xlsx") (name file) = false -> fname = name file) /\
     (forall pre post,
         name file = pre ++ lit ".xlsx" ++ post ->
         (forall j, j < List.length pre ->
                    starts_with (lit ".xlsx") (skipn j (name file)) = false) ->
         fname = pre ++ lit ".md" ++ post)).
Proof.
  intros Hf Hn Hst Hb Hft.
  destruct (run_success env pg Hf Hn (ok_2xx res Hst) Hb Hft)
    as (pg' & Hrun & Hdl & _ & _).
  exists pg', (choose_filename file
                 (headers_get res (lit "content-disposition"))).
  split; [exact Hrun|]. split; [exact Hdl|]. split.
  - intros cd g Hcd Hm. rewrite Hcd. now apply choose_filename_match.
  - intros Hno. rewrite (choose_filename_fallback file Hno). split.
    + apply replace_absent.
    + intros pre post Hname Hleft. rewrite Hname in *.
      now apply replace_leftmost.
Qed.

Lemma download_filename_witness :
  exists pg' fname,
    run (server plain_200) click_handler (fresh_page [twice_xlsx])
    = Finished tt pg' /\
    downloads pg' = [ {| saved_as := fname; saved_data := payload |} ] /\
    fname = lit "a" ++ lit ".md" ++ lit ".xlsx".
Proof.
  destruct (download_filename (server plain_200) (fresh_page [twice_xlsx])
              (file := twice_xlsx) (rest := []) (res := plain_200)
              (b := payload) eq_refl eq_refl)
    as (pg' & fname & Hrun & Hdl & _ & Hfb).
  - vm_compute. split; discriminate.
  - reflexivity.
  - reflexivity.
  - exists pg', fname. split; [exact Hrun|]. split; [exact Hdl|].
    apply (Hfb (or_introl eq_refl)); [reflexivity|].
    intros [|j] Hj; [reflexivity|]. change (S j < 1) in Hj. lia.
Defined.

(** C2.  Whatever file is selected, when the request resolves with
    status 200, body [B] and the header
    [content-disposition: filename="out.md"], the download is called
    [out.md] and its content is [B]. *)
Theorem header_names_the_download env pg file rest res B :
  fileInput_files pg = file :: rest ->
  network env (upload_request file) = Fulfilled res ->
  status res = 200%N ->
  headers_get res (lit "content-disposition") = Some filename_out_md ->
  blob res = Fulfilled B ->
  (forall f, faults env f = None) ->
  exists pg',
    run env click_handler pg = Finished tt pg' /\
    downloads pg' =
      downloads pg ++ [ {| saved_as := lit "out.md"; saved_data := B |} ].
Proof.
  intros Hf Hn Hst Hcd Hb Hft.
  assert (Hok : ok res = true) by (unfold ok; now rewrite Hst).
  destruct (run_success env pg Hf Hn Hok Hb Hft)
    as (pg' & Hrun & Hdl & _ & _).
  exists pg'. split; [exact Hrun|].
  rewrite Hdl, Hcd.
  now rewrite (@choose_filename_match file filename_out_md (lit "out.md")).
Qed.

Lemma header_names_the_download_witness :
  exists pg',
    run (server named_200) click_handler (fresh_page [report_xlsx])
    = Finished tt pg' /\
    downloads pg' = [ {| saved_as := lit "out.md"; saved_data := payload |} ].
Proof.
  apply (header_names_the_download (server named_200)
           (fresh_page [report_xlsx]) (file := report_xlsx) (rest := [])
           (res := named_200) (B := payload));
    reflexivity.
Defined.

(** C8.  With the file [report.xlsx] selected and a 200 response without
    [content-disposition] header, the download is called [report.md]. *)
Theorem report_xlsx_becomes_report_md env pg file rest res B :
  fileInput_files pg = file :: rest ->
  name file = lit "report.xlsx" ->
  network env (upload_request file) = Fulfilled res ->
  status res = 200%N ->
  headers_get res (lit "content-disposition") = None ->
  blob res = Fulfilled B ->
  (forall f, faults env f = None) ->
  exists pg',
    run env click_handler pg = Finished tt pg' /\
    downloads pg' =
      downloads pg ++ [ {| saved_as := lit "report.md"; saved_data := B |} ].
Proof.
  intros Hf Hname Hn Hst Hcd Hb Hft.
  assert (Hok : ok res = true) by (unfold ok; now rewrite Hst).
  destruct (run_success env pg Hf Hn Hok Hb Hft)
    as (pg' & Hrun & Hdl & _ & _).
  exists pg'. split; [exact Hrun|].
  rewrite Hdl, Hcd. unfold choose_filename. cbn [truthy]. rewrite Hname.
  reflexivity.
Qed.

Lemma report_xlsx_becomes_report_md_witness :
  exists pg',
    run (server plain_200) click_handler (fresh_page [report_xlsx])
    = Finished tt pg' /\
    downloads pg' =
      [ {| saved_as := lit "report.md"; saved_data := payload |} ].
Proof.
  apply (report_xlsx_becomes_report_md (server plain_200)
           (fresh_page [report_xlsx]) (file := report_xlsx) (rest := [])
           (res := plain_200) (B := payload));
    reflexivity.
Defined.

(** C9.  When [.xlsx] does not occur in the name of the selected file
    and the 2xx response has no [content-disposition] value that matches,
    the run ends normally and the download carries the name of the file
    unchanged. *)
Theorem name_without_xlsx_is_kept env pg file rest res b :
  fileInput_files pg = file :: rest ->
  includes (lit ".xlsx") (name file) = false ->
  network env (upload_request file) = Fulfilled res ->
  (200 <= status res <= 299)%N ->
  headers_get res (lit "content-disposition") = None \/
  (exists cd, headers_get res (lit "content-disposition") = Some cd /\
              match_filename cd = None) ->
  blob res = Fulfilled b ->
  (forall f, faults env f = None) ->
  exists pg',
    run env click_handler pg = Finished tt pg' /\
    downloads pg' =
      downloads pg ++ [ {| saved_as := name file; saved_data := b |} ] /\
    status_textContent pg' = msg_done.
Proof.
  intros Hf Hnone Hn Hst Hcd Hb Hft.
  destruct (run_success env pg Hf Hn (ok_2xx res Hst) Hb Hft)
    as (pg' & Hrun & Hdl & Hdone & _).
  exists pg'. split; [exact Hrun|]. split; [|exact Hdone].
  rewrite Hdl, (choose_filename_fallback file Hcd).
  now rewrite replace_absent.
Qed.

Lemma name_without_xlsx_is_kept_witness :
  exists pg',
    run (server plain_200) click_handler (fresh_page [notes_txt])
    = Finished tt pg' /\
    downloads pg' =
      [ {| saved_as := lit "notes.txt"; saved_data := payload |} ] /\
    status_textContent pg' = msg_done.
Proof.
  apply (name_without_xlsx_is_kept (server plain_200)
           (fresh_page [notes_txt]) (file := notes_txt) (rest := [])
           (res := plain_200) (b := payload)).
  - reflexivity.
  - reflexivity.
  - reflexivity.
  - vm_compute. split; discriminate.
  - left. reflexivity.
  - reflexivity.
  - reflexivity.
Defined.

(* ------------------------------------------------------------------ *)
(** ** Status text and button on every way out *)

(** C3.  With a file selected, whatever the network answers, whatever
    the status is, whether the body can be read and whichever call
    throws, the handler comes to its end and the button is enabled
    there. *)
Theorem button_enabled_at_the_end env pg file rest :
  fileInput_files pg = file :: rest ->
  exists pg',
    run env click_handler pg = Finished tt pg' /\
    uploadBtn_disabled pg' = false.
Proof.
  intros Hf. exact (run_ends env pg Hf).
Qed.

Lemma button_enabled_at_the_end_witness :
  (exists pg',
      run (server plain_200) click_handler (fresh_page [report_xlsx])
      = Finished tt pg' /\ uploadBtn_disabled pg' = false) /\
  (exists pg',
      run (server error_500) click_handler (fresh_page [report_xlsx])
      = Finished tt pg' /\ uploadBtn_disabled pg' = false) /\
  (exists pg',
      run offline click_handler (fresh_page [report_xlsx])
      = Finished tt pg' /\ uploadBtn_disabled pg' = false).
Proof.
  repeat split;
    apply (button_enabled_at_the_end _ (fresh_page [report_xlsx])
             (file := report_xlsx) (rest := []));
    reflexivity.
Defined.

(** C4.  A click with no file selected writes the text of line 9 to the
    status and nothing else: no request goes out, the button is not
    written to, so a button that was enabled is enabled still. *)
Theorem no_file_selected env pg :
  fileInput_files pg = [] ->
  exists pg',
    run env click_handler pg = Finished tt pg' /\
    status_textContent pg' = msg_select_file /\
    log pg' = log pg ++ [Wrote_status msg_select_file] /\
    requests (log pg') = requests (log pg) /\
    disabled_writes (log pg') = disabled_writes (log pg) /\
    uploadBtn_disabled pg' = uploadBtn_disabled pg /\
    (uploadBtn_disabled pg = false -> uploadBtn_disabled pg' = false).
Proof.
  intros Hf. eexists. split; [exact (run_no_file env pg Hf)|].
  cbn. rewrite requests_app, disabled_writes_app, !app_nil_r.
  repeat split. auto.
Qed.

Lemma no_file_selected_witness :
  exists pg',
    run offline click_handler (fresh_page []) = Finished tt pg' /\
    status_textContent pg' = msg_select_file /\
    log pg' = log (fresh_page []) ++ [Wrote_status msg_select_file] /\
    requests (log pg') = requests (log (fresh_page [])) /\
    disabled_writes (log pg') = disabled_writes (log (fresh_page [])) /\
    uploadBtn_disabled pg' = uploadBtn_disabled (fresh_page []) /\
    (uploadBtn_disabled (fresh_page []) = false ->
     uploadBtn_disabled pg' = false).
Proof.
  apply (no_file_selected offline (fresh_page [])). reflexivity.
Defined.

(** C5.  When the request resolves with a status outside 2xx, the status
    text is the text of line 30 followed by the decimal digits of the
    status code (so it holds [500] for a 500), the button is enabled,
    the handler has come to its end, and [blob()] was not called: the
    body is not consumed and nothing is downloaded. *)
Theorem http_error_reported env pg file rest res :
  fileInput_files pg = file :: rest ->
  network env (upload_request file) = Fulfilled res ->
  (status res < 200 \/ 299 < status res)%N ->
  exists pg',
    run env click_handler pg = Finished tt pg' /\
    status_textContent pg' = msg_error ++ of_number (status res) /\
    includes (of_number (status res)) (status_textContent pg') = true /\
    (status res = 500%N ->
     includes (lit "500") (status_textContent pg') = true) /\
    uploadBtn_disabled pg' = false /\
    bodies_read (log pg') = bodies_read (log pg) /\
    downloads pg' = downloads pg.
Proof.
  intros Hf Hn Hst.
  destruct (run_http_error env pg Hf Hn (not_ok_outside res Hst))
    as (pg' & Hrun & Htext & Hdis & Hdl & Hlog).
  exists pg'. split; [exact Hrun|]. split; [exact Htext|].
  rewrite Htext, Hlog, bodies_read_app. cbn [bodies_read].
  rewrite app_nil_r. split; [apply includes_tail|].
  split; [|now repeat split].
  intros ->. reflexivity.
Qed.

Lemma http_error_reported_witness :
  exists pg',
    run (server error_500) click_handler (fresh_page [report_xlsx])
    = Finished tt pg' /\
    includes (lit "500") (status_textContent pg') = true /\
    uploadBtn_disabled pg' = false.
Proof.
  destruct (http_error_reported (server error_500)
              (fresh_page [report_xlsx]) (file := report_xlsx) (rest := [])
              (res := error_500) eq_refl eq_refl)
    as (pg' & Hrun & _ & _ & H500 & Hdis & _).
  - right. reflexivity.
  - exists pg'. split; [exact Hrun|]. split; [|exact Hdis].
    apply H500. reflexivity.
Defined.

(** C6.  When [fetch] rejects with an error whose message is [m], the
    status text is the text of line 53 followed by [m] (so it holds
    [offline] for that message), the button is enabled and the handler
    has come to its end. *)
Theorem network_failure_reported env pg file rest e :
  fileInput_files pg = file :: rest ->
  network env (upload_request file) = Rejected e ->
  exists pg',
    run env click_handler pg = Finished tt pg' /\
    status_textContent pg' = msg_transport_error ++ message e /\
    includes (message e) (status_textContent pg') = true /\
    uploadBtn_disabled pg' = false.
Proof.
  intros Hf Hn.
  destruct (run_rejected env pg Hf Hn)
    as (pg' & Hrun & Htext & Hdis & _).
  exists pg'. split; [exact Hrun|]. split; [exact Htext|].
  split; [|exact Hdis]. rewrite Htext. apply includes_tail.
Qed.

Lemma network_failure_reported_witness :
  exists pg',
    run offline click_handler (fresh_page [report_xlsx]) = Finished tt pg' /\
    status_textContent pg' = msg_transport_error ++ lit "offline" /\
    includes (lit "offline") (status_textContent pg') = true /\
    uploadBtn_disabled pg' = false.
Proof.
  apply (network_failure_reported offline (fresh_page [report_xlsx])
           (file := report_xlsx) (rest := [])
           (e := {| message := lit "offline" |}));
    reflexivity.
Defined.

(** C10.  After a 2xx response, every exception thrown on the way (the
    body that cannot be read, a call of lines 43-49 that throws) ends in
    the [catch] block of line 52: the status text is the text of line 53
    followed by the message of the exception, as for a failure of the
    network, the button is enabled, and the handler comes to its end
    with no exception leaving it.  An unreadable body and a throwing
    call do end in an exception thrown. *)
Theorem late_exception_reported env pg file rest res :
  fileInput_files pg = file :: rest ->
  network env (upload_request file) = Fulfilled res ->
  (200 <= status res <= 299)%N ->
  exists pg' evs,
    run env click_handler pg = Finished tt pg' /\
    log pg' = log pg ++ evs /\
    uploadBtn_disabled pg' = false /\
    (forall e, In (Threw e) evs ->
               status_textContent pg' = msg_transport_error ++ message e) /\
    (forall e, blob res = Rejected e -> In (Threw e) evs) /\
    (forall b f e, blob res = Fulfilled b -> faults env f = Some e ->
                   exists e', In (Threw e') evs).
Proof.
  intros Hf Hn Hst.
  destruct (run_caught env pg Hf Hn (ok_2xx res Hst))
    as (pg' & evs & Hrun & Hlog & Hdis & Hcaught & Hbody & Hcall).
  exists pg', evs. auto 10.
Qed.

Lemma late_exception_reported_witness :
  exists pg',
    run (server broken_200) click_handler (fresh_page [report_xlsx])
    = Finished tt pg' /\
    status_textContent pg' =
      msg_transport_error ++ lit "body stream interrupted" /\
    uploadBtn_disabled pg' = false.
Proof.
  destruct (late_exception_reported (server broken_200)
              (fresh_page [report_xlsx]) (file := report_xlsx) (rest := [])
              (res := broken_200) eq_refl eq_refl)
    as (pg' & evs & Hrun & _ & Hdis & Hcaught & Hbody & _).
  - vm_compute. split; discriminate.
  - exists pg'. split; [exact Hrun|]. split; [|exact Hdis].
    apply (Hcaught {| message := lit "body stream interrupted" |}).
    apply Hbody. reflexivity.
Defined.

(** A call that throws while the download is set up, on a concrete run:
    the body was read, nothing is downloaded, the message is shown. *)
Example append_child_throws :
  run no_body click_handler (fresh_page [report_xlsx]) =
  Finished tt
    (final_page (run no_body click_handler (fresh_page [report_xlsx]))) /\
  status_textContent
    (final_page (run no_body click_handler (fresh_page [report_xlsx])))
  = msg_transport_error ++ lit "body is null" /\
  downloads
    (final_page (run no_body click_handler (fresh_page [report_xlsx])))
  = [] /\
  uploadBtn_disabled
    (final_page (run no_body click_handler (fresh_page [report_xlsx])))
  = false.
Proof. repeat split; vm_compute; reflexivity. Qed.

(* ------------------------------------------------------------------ *)
(** ** One upload at a time *)

(** C7.  In every world the event loop can reach: a click with a file
    selected disables the button and writes the text of line 14 before
    the POST goes out, and the handler is suspended on that request with
    the button disabled; one upload at most is in flight; while one is,
    the button is disabled, so that an enabled button means that no
    promise is pending. *)
Theorem one_upload_in_flight w :
  reachable w ->
  (forall ft file rest,
      fileInput_files (page w) = file :: rest ->
      exists k pg',
        run_turn ft click_handler (page w) =
        Waiting (Suspend (Fetch (upload_request file)) k) pg' /\
        log pg' = log (page w) ++
          [Wrote_disabled true; Wrote_status msg_generating;
           Fetched (upload_request file)] /\
        uploadBtn_disabled pg' = true /\
        status_textContent pg' = msg_generating) /\
  in_flight w <= 1 /\
  (in_flight w = 1 -> uploadBtn_disabled (page w) = true) /\
  (uploadBtn_disabled (page w) = false -> in_flight w = 0).
Proof.
  intros Hreach.
  destruct (reachable_gate_invariant Hreach) as (Hlen & Hdis & _).
  split; [|split; [exact Hlen|split]].
  - intros ft file rest Hf.
    destruct (click_suspends ft (page w) Hf) as (k & Hturn & _).
    exists k, (page_at_fetch file (page w)).
    split; [exact Hturn|]. unfold page_at_fetch.
    split; [flat_log; reflexivity|]. split; reflexivity.
  - intros H1. apply Hdis. unfold in_flight in H1.
    destruct (waiting w); [discriminate H1 | discriminate].
  - intros Hen. unfold in_flight.
    destruct (waiting w) as [|s l]; [reflexivity|].
    rewrite Hdis in Hen by discriminate. discriminate Hen.
Qed.

Lemma one_upload_in_flight_witness :
  in_flight one_click = 1 /\
  uploadBtn_disabled (page one_click) = true /\
  in_flight one_click <= 1.
Proof.
  destruct (one_upload_in_flight (w := one_click)) as (_ & Hlen & Hdis & _).
  - exact (next (loaded (fresh_page [report_xlsx]) eq_refl)
             (user_clicks no_fault
                {| page := fresh_page [report_xlsx]; waiting := [] |}
                eq_refl)).
  - split; [reflexivity|]. split; [apply Hdis; reflexivity | exact Hlen].
Defined.

(* ------------------------------------------------------------------ *)
(** ** More on the name of the download *)

Section GroupFacts.

Implicit Types (g t s : jsstring).

Lemma dot_run_app g t :
  forallb (fun c => negb (line_terminator c)) g = true ->
  dot_run (g ++ t) = g ++ dot_run t.
Proof.
  induction g as [|c g IH]; cbn; [reflexivity|].
  intros H; apply andb_prop in H as [Hc Hg].
  apply negb_true_iff in Hc. rewrite Hc, IH by assumption. reflexivity.
Qed.

Lemma before_last_quote_app g t :
  before_last_quote (g ++ dquote :: t) =
  Some match before_last_quote t with
       | Some p => g ++ dquote :: p
       | None => g
       end.
Proof.
  induction g as [|c g IH].
  - cbn. destruct (before_last_quote t); reflexivity.
  - cbn [app before_last_quote]. rewrite IH.
    destruct (before_last_quote t); reflexivity.
Qed.

Lemma match_filename_here s g :
  match_here s = Some g -> match_filename s = Some g.
Proof.
  intros H. destruct s; cbn [match_filename]; now rewrite H.
Qed.

Lemma match_here_head s :
  match_here (filename_eq_quote ++ s) = group_then_quote s.
Proof.
  unfold match_here.
  rewrite starts_with_app, skipn_app, skipn_all, Nat.sub_diag.
  reflexivity.
Qed.

Lemma match_filename_greedy g tail :
  g <> [] ->
  forallb (fun c => negb (line_terminator c)) g = true ->
  match_filename (filename_eq_quote ++ g ++ dquote :: tail) =
  Some match before_last_quote (dot_run tail) with
       | Some p => g ++ dquote :: p
       | None => g
       end.
Proof.
  intros Hne Hg. apply match_filename_here.
  rewrite match_here_head. unfold group_then_quote.
  rewrite dot_run_app by assumption.
  change (dot_run (dquote :: tail)) with (dquote :: dot_run tail).
  rewrite before_last_quote_app.
  destruct (before_last_quote (dot_run tail)) as [p|].
  - destruct g; [contradiction | reflexivity].
  - destruct g; [contradiction | reflexivity].
Qed.

End GroupFacts.

(** X6 (line 39).  A successful match says what the header value looks
    like: somewhere in it stands [filename=] and a double quote, then
    the group, which holds one character at least and no line
    terminator, then a double quote. *)
Theorem matched_group_shape cd g :
  match_filename cd = Some g ->
  exists pre post,
    cd = pre ++ filename_eq_quote ++ g ++ dquote :: post /\
    g <> [] /\
    forallb (fun c => negb (line_terminator c)) g = true.
Proof.
  exact (@match_filename_sound cd g).
Qed.

Lemma matched_group_shape_witness :
  exists pre post,
    filename_out_md = pre ++ filename_eq_quote ++ lit "out.md" ++ dquote :: post /\
    lit "out.md" <> [] /\
    forallb (fun c => negb (line_terminator c)) (lit "out.md") = true.
Proof.
  apply (@matched_group_shape filename_out_md (lit "out.md")). reflexivity.
Defined.



(** X8 (line 37).  For a name that ends in [.xlsx] and holds [.xlsx]
    nowhere before, the fallback name is the name with that suffix
    replaced by [.md]: here the code and a replacement of the suffix
    agree. *)
Theorem fallback_agrees_on_single_suffix file stem :
  name file = stem ++ lit ".xlsx" ->
  (forall j, j < List.length stem ->
             starts_with (lit ".xlsx") (skipn j (name file)) = false) ->
  choose_filename file None = stem ++ lit ".md" /\
  choose_filename file None = Spec.replace_xlsx_suffix (name file).
Proof.
  intros Hname Hleft.
  assert (Hcode : choose_filename file None = stem ++ lit ".md").
  { unfold choose_filename. cbn [truthy]. rewrite Hname in *.
    rewrite <- (app_nil_r (lit ".xlsx")) in *.
    rewrite replace_leftmost by assumption. now rewrite app_nil_r. }
  split; [exact Hcode|]. rewrite Hcode, Hname.
  unfold Spec.replace_xlsx_suffix, Spec.ends_with.
  rewrite rev_app_distr, starts_with_app, length_app, Nat.add_sub.
  rewrite firstn_app, Nat.sub_diag, firstn_all. cbn [firstn].
  now rewrite app_nil_r.
Qed.

Lemma fallback_agrees_on_single_suffix_witness :
  choose_filename report_xlsx None = lit "report" ++ lit ".md" /\
  choose_filename report_xlsx None =
  Spec.replace_xlsx_suffix (name report_xlsx).
Proof.
  apply (@fallback_agrees_on_single_suffix report_xlsx (lit "report")).
  - reflexivity.
  - intros j Hj. change (j < 6) in Hj.
    do 6 (destruct j as [|j]; [reflexivity|]). lia.
Defined.

(* ------------------------------------------------------------------ *)
(** ** What a run sends, creates and leaves behind *)

Section MoreRuns.

Variable env : Env.
Variable pg : Page.

Lemma run_one_request file rest :
  fileInput_files pg = file :: rest ->
  exists pg',
    run env click_handler pg = Finished tt pg' /\
    requests (log pg') = requests (log pg) ++ [upload_request file].
Proof.
  intros Hf. unfold click_handler.
  run_with ltac:(first [rewrite Hf | ask_env env]);
    eexists; (split; [reflexivity|]);
    flat_log; rewrite requests_app; reflexivity.
Qed.

Lemma run_downloads file rest :
  fileInput_files pg = file :: rest ->
  exists pg',
    run env click_handler pg = Finished tt pg' /\
    (downloads pg' = downloads pg \/
     exists res b,
       network env (upload_request file) = Fulfilled res /\
       ok res = true /\
       blob res = Fulfilled b /\
       downloads pg' = downloads pg ++
         [ {| saved_as :=
                choose_filename file
                  (headers_get res (lit "content-disposition"));
              saved_data := b |} ]).
Proof.
  intros Hf.
  destruct (network env (upload_request file)) as [res|e] eqn:Hn;
    [destruct (ok res) eqn:Hok;
       [destruct (blob res) as [b|e] eqn:Hb|]|];
    unfold click_handler;
    run_with ltac:(first [rewrite Hf | rewrite Hn | rewrite Hok
                         | rewrite Hb | ask_env env]);
    eexists; (split; [reflexivity|]);
    first [ left; reflexivity
          | right; exists res, b;
            repeat (split; [first [reflexivity | assumption]|]);
            cbn; rewrite nth_error_last; reflexivity ].
Qed.


Lemma filter_known (cs : list Anchor) (n : nat) :
  Forall (fun c => node c < n) cs ->
  filter (fun c => negb (Nat.eqb (node c) n)) cs = cs.
Proof.
  induction 1 as [|c cs Hc _ IH]; cbn; [reflexivity|].
  destruct (Nat.eqb_spec (node c) n); [lia|]. cbn. now rewrite IH.
Qed.

Lemma run_removes_anchor file rest res b :
  fileInput_files pg = file :: rest ->
  network env (upload_request file) = Fulfilled res ->
  ok res = true ->
  blob res = Fulfilled b ->
  (forall f, faults env f = None) ->
  children_known pg ->
  exists pg',
    run env click_handler pg = Finished tt pg' /\
    body_children pg' = body_children pg /\
    elements_created pg' = S (elements_created pg).
Proof.
  intros Hf Hn Hok Hb Hft Hknown. unfold click_handler.
  run_with ltac:(first [rewrite Hf | rewrite Hn | rewrite Hok
                       | rewrite Hb | rewrite Hft]).
  eexists. split; [reflexivity|]. cbn. split; [|reflexivity].
  rewrite filter_app, (filter_known Hknown). cbn.
  rewrite Nat.eqb_refl. cbn. apply app_nil_r.
Qed.

Lemma run_click_throws file rest res b e :
  fileInput_files pg = file :: rest ->
  network env (upload_request file) = Fulfilled res ->
  ok res = true ->
  blob res = Fulfilled b ->
  faults env In_createObjectURL = None ->
  faults env In_createElement = None ->
  faults env In_appendChild = None ->
  faults env In_click = Some e ->
  exists pg',
    run env click_handler pg = Finished tt pg' /\
    body_children pg' = body_children pg ++
      [download_anchor pg
         (choose_filename file
            (headers_get res (lit "content-disposition")))] /\
    downloads pg' = downloads pg /\
    status_textContent pg' = msg_transport_error ++ message e.
Proof.
  intros Hf Hn Hok Hb H1 H2 H3 H4. unfold click_handler.
  run_with ltac:(first [rewrite Hf | rewrite Hn | rewrite Hok | rewrite Hb
                       | rewrite H1 | rewrite H2 | rewrite H3
                       | rewrite H4]).
  eexists. repeat split.
Qed.

Lemma run_status_forms file rest :
  fileInput_files pg = file :: rest ->
  exists pg',
    run env click_handler pg = Finished tt pg' /\
    (status_textContent pg' = msg_done \/
     (exists res, status_textContent pg' =
                  msg_error ++ of_number (status res)) \/
     (exists e, status_textContent pg' =
                msg_transport_error ++ message e)).
Proof.
  intros Hf. unfold click_handler.
  run_with ltac:(first [rewrite Hf | ask_env env]);
    eexists; (split; [reflexivity|]); cbn;
    first [ left; reflexivity
          | right; left; eexists; reflexivity
          | right; right; eexists; reflexivity ].
Qed.

End MoreRuns.

(* ------------------------------------------------------------------ *)
(** ** The handler in the event loop, to its end *)

Section MoreTurns.

Variable ft : Faults.

Lemma run_ret (A : Type) env (a : A) pg : run env (Ret a) pg = Finished a pg.
Proof. reflexivity. Qed.

(** The turn that reaches an [await] inside the [try]. *)
Lemma run_turn_await_wrapped X (pr : Promise X) (K : X -> Prog unit)
    (h : JsError -> Prog unit) (c : Prog unit) pg :
  run_turn ft (finally (try_catch (bind (await pr) K) h) c) pg =
  Waiting (Suspend pr (fun o => finally (try_catch (bind (complete o) K) h) c))
    (record (announce pr) pg).
Proof. reflexivity. Qed.

Lemma click_cleans pg :
  match run_turn ft click_handler pg with
  | Waiting s _ => cleans_up s
  | _ => True
  end.
Proof.
  unfold click_handler. rewrite run_turn_bind_call.
  cbn [thrown fallible perform fst snd].
  destruct (fileInput_files pg) as [|file rest]; cbn [hd_error].
  - rewrite run_turn_call. exact I.
  - rewrite run_turn_bind_call. cbn [thrown fallible perform fst snd].
    rewrite run_turn_bind_call. cbn [thrown fallible perform fst snd].
    match goal with
    | |- context [run_turn ft (finally (try_catch ?b _) _) ?q] =>
        pose proof (wrapped_turn ft b q) as H
    end.
    unfold catch_block, finally_block in H.
    match type of H with
    | match ?t with _ => _ end => destruct t; [exact I | exact I | exact H]
    end.
Qed.

End MoreTurns.

Section MoreInvariant.

Lemma cleans_step w w' :
  Forall cleans_up (waiting w) -> step w w' ->
  Forall cleans_up (waiting w').
Proof.
  intros Hall Hstep.
  destruct Hstep as [fs w|ft w Hen|ft w before later X p k o Hw Hset].
  - exact Hall.
  - pose proof (click_cleans ft (page w)) as Ht.
    destruct (run_turn ft click_handler (page w)) as [pg'|e pg'|s pg'];
      cbn; try exact Hall.
    apply Forall_app. split; [exact Hall | now constructor].
  - rewrite Hw in Hall. apply Forall_app in Hall as [Hb Hsl].
    inversion Hsl as [|s l Hs Hl]; subst.
    destruct (Hs o) as [body Hk]. rewrite Hk.
    pose proof (wrapped_turn ft body (settled o (page w))) as Ht.
    destruct (run_turn ft
                (finally (try_catch body catch_block) finally_block)
                (settled o (page w))) as [pg'|e pg'|s pg']; cbn.
    + apply Forall_app. now split.
    + contradiction.
    + apply Forall_app. split; [apply Forall_app; now split|].
      now constructor.
Qed.

Lemma reachable_cleans w : reachable w -> Forall cleans_up (waiting w).
Proof.
  induction 1 as [pg Hen|w w' _ IH Hstep].
  - constructor.
  - exact (cleans_step IH Hstep).
Qed.

End MoreInvariant.

(* ------------------------------------------------------------------ *)
(** ** Further properties of the handler *)

(** X1 (lines 16-25).  A click with a file selected sends one request,
    whatever happens afterwards: a POST to the endpoint of line 19 whose
    form holds the one field [file] with the first file of the
    selection; further files of the selection are not sent. *)
Theorem exactly_one_request env pg file rest :
  fileInput_files pg = file :: rest ->
  exists pg',
    run env click_handler pg = Finished tt pg' /\
    requests (log pg') = requests (log pg) ++
      [ {| url := lit "http://localhost:7071/api/upload";
           method := lit "POST";
           body := [(lit "file", file)] |} ].
Proof.
  intros Hf. exact (run_one_request env pg Hf).
Qed.

Lemma exactly_one_request_witness :
  exists pg',
    run offline click_handler (fresh_page two_files) = Finished tt pg' /\
    requests (log pg') =
      [ {| url := lit "http://localhost:7071/api/upload";
           method := lit "POST";
           body := [(lit "file", report_xlsx)] |} ].
Proof.
  apply (exactly_one_request offline (fresh_page two_files)
           (file := report_xlsx) (rest := [notes_txt])).
  reflexivity.
Defined.

(** X2 (lines 29-48).  A run downloads nothing, or one file; and it
    downloads one only when the request was answered with a 2xx status
    and the body could be read, the file then holding that body under
    the name of lines 37-41. *)
Theorem download_only_after_success env pg file rest :
  fileInput_files pg = file :: rest ->
  exists pg',
    run env click_handler pg = Finished tt pg' /\
    (downloads pg' = downloads pg \/
     exists res b,
       network env (upload_request file) = Fulfilled res /\
       (200 <= status res <= 299)%N /\
       blob res = Fulfilled b /\
       downloads pg' = downloads pg ++
         [ {| saved_as :=
                choose_filename file
                  (headers_get res (lit "content-disposition"));
              saved_data := b |} ]).
Proof.
  intros Hf.
  destruct (run_downloads env pg Hf) as (pg' & Hrun & [Hno|Hyes]).
  - exists pg'. auto.
  - destruct Hyes as (res & b & Hn & Hok & Hb & Hdl).
    exists pg'. split; [exact Hrun|]. right. exists res, b.
    repeat split; try assumption.
    + unfold ok in Hok. apply andb_prop in Hok as [H _].
      now apply N.leb_le.
    + unfold ok in Hok. apply andb_prop in Hok as [_ H].
      now apply N.leb_le.
Qed.

Lemma download_only_after_success_witness :
  exists pg',
    run (server broken_200) click_handler (fresh_page [report_xlsx])
    = Finished tt pg' /\
    downloads pg' = [].
Proof.
  destruct (download_only_after_success (server broken_200)
              (fresh_page [report_xlsx]) (file := report_xlsx) (rest := [])
              eq_refl)
    as (pg' & Hrun & [Hno|(res & b & Hn & _ & Hb & _)]).
  - exists pg'. split; [exact Hrun | exact Hno].
  - injection Hn as <-. discriminate Hb.
Defined.



(** X4 (lines 44-49).  After a download that works, the anchor is gone
    from the document: the children of [document.body] are those of
    before, one more element has been created. *)
Theorem anchor_removed_after_download env pg file rest res b :
  fileInput_files pg = file :: rest ->
  network env (upload_request file) = Fulfilled res ->
  (200 <= status res <= 299)%N ->
  blob res = Fulfilled b ->
  (forall f, faults env f = None) ->
  children_known pg ->
  exists pg',
    run env click_handler pg = Finished tt pg' /\
    body_children pg' = body_children pg /\
    elements_created pg' = S (elements_created pg) /\
    children_known pg'.
Proof.
  intros Hf Hn Hst Hb Hft Hknown.
  destruct (@run_removes_anchor env pg file rest res b Hf Hn
              (ok_2xx res Hst) Hb Hft Hknown)
    as (pg' & Hrun & Hch & Hcount).
  exists pg'. repeat split; try assumption.
  unfold children_known in *. rewrite Hch, Hcount.
  eapply Forall_impl; [|exact Hknown]. cbn. intros c Hc. lia.
Qed.

Lemma anchor_removed_after_download_witness :
  exists pg',
    run (server plain_200) click_handler page_with_child = Finished tt pg' /\
    body_children pg' = body_children page_with_child /\
    elements_created pg' = 2 /\
    children_known pg'.
Proof.
  apply (@anchor_removed_after_download (server plain_200) page_with_child
           report_xlsx [] plain_200 payload).
  - reflexivity.
  - reflexivity.
  - vm_compute. split; discriminate.
  - reflexivity.
  - reflexivity.
  - repeat constructor.
Defined.

(** X5 (lines 47-49, 52-53).  When [a.click()] throws, the anchor that
    line 47 attached stays in the document, for neither the [catch] nor
    the [finally] block removes it; nothing is downloaded and the status
    shows the message of the exception. *)
Theorem anchor_left_when_click_throws env pg file rest res b e :
  fileInput_files pg = file :: rest ->
  network env (upload_request file) = Fulfilled res ->
  (200 <= status res <= 299)%N ->
  blob res = Fulfilled b ->
  faults env In_createObjectURL = None ->
  faults env In_createElement = None ->
  faults env In_appendChild = None ->
  faults env In_click = Some e ->
  exists pg',
    run env click_handler pg = Finished tt pg' /\
    body_children pg' = body_children pg ++
      [download_anchor pg
         (choose_filename file
            (headers_get res (lit "content-disposition")))] /\
    downloads pg' = downloads pg /\
    status_textContent pg' = msg_transport_error ++ message e.
Proof.
  intros Hf Hn Hst Hb H1 H2 H3 H4.
  exact (run_click_throws env pg Hf Hn (ok_2xx res Hst) Hb H1 H2 H3 H4).
Qed.

Lemma anchor_left_when_click_throws_witness :
  exists pg',
    run click_blocked click_handler (fresh_page [report_xlsx])
    = Finished tt pg' /\
    body_children pg' =
      [download_anchor (fresh_page [report_xlsx]) (lit "report.md")] /\
    downloads pg' = [] /\
    status_textContent pg' = msg_transport_error ++ lit "click blocked".
Proof.
  apply (anchor_left_when_click_throws click_blocked
           (fresh_page [report_xlsx]) (file := report_xlsx) (rest := [])
           (res := plain_200) (b := payload)
           (e := {| message := lit "click blocked" |})).
  - reflexivity.
  - reflexivity.
  - vm_compute. split; discriminate.
  - reflexivity.
  - reflexivity.
  - reflexivity.
  - reflexivity.
  - reflexivity.
Defined.

(** X9 (lines 14, 30, 51, 53).  When the handler has come to its end
    after a click with a file selected, the status no longer shows the
    text of line 14: it shows the text of line 51, the text of line 30
    with a status code, or the text of line 53 with a message. *)
Theorem status_never_left_generating env pg file rest :
  fileInput_files pg = file :: rest ->
  exists pg',
    run env click_handler pg = Finished tt pg' /\
    (status_textContent pg' = msg_done \/
     (exists res, status_textContent pg' =
                  msg_error ++ of_number (status res)) \/
     (exists e, status_textContent pg' =
                msg_transport_error ++ message e)) /\
    status_textContent pg' <> msg_generating.
Proof.
  intros Hf.
  destruct (run_status_forms env pg Hf) as (pg' & Hrun & Hforms).
  exists pg'. split; [exact Hrun|]. split; [exact Hforms|].
  destruct Hforms as [H|[[res H]|[e H]]]; rewrite H; discriminate.
Qed.

Lemma status_never_left_generating_witness :
  exists pg',
    run (server error_500) click_handler (fresh_page [report_xlsx])
    = Finished tt pg' /\
    status_textContent pg' <> msg_generating.
Proof.
  destruct (status_never_left_generating (server error_500)
              (fresh_page [report_xlsx]) (file := report_xlsx) (rest := [])
              eq_refl)
    as (pg' & Hrun & _ & Hne).
  exists pg'. split; [exact Hrun | exact Hne].
Defined.

(** X10 (lines 6, 37).  The selection is read once, at the click.  The
    handler suspended at line 22 goes on with the file that was first in
    the selection then: when the response arrives, the download is named
    after that file, whatever the page has become in between (another
    file selected, for one). *)
Theorem selection_read_at_click ft pg file rest :
  fileInput_files pg = file :: rest ->
  exists k,
    run_turn ft click_handler pg =
    Waiting (Suspend (Fetch (upload_request file)) k)
      (page_at_fetch file pg) /\
    forall env later res b,
      (200 <= status res <= 299)%N ->
      blob res = Fulfilled b ->
      (forall f, faults env f = None) ->
      exists pg',
        run env (k (Fulfilled res)) later = Finished tt pg' /\
        downloads pg' = downloads later ++
          [ {| saved_as :=
                 choose_filename file
                   (headers_get res (lit "content-disposition"));
               saved_data := b |} ].
Proof.
  intros Hf. unfold click_handler. rewrite run_turn_bind_call.
  cbn [thrown fallible perform fst snd]. rewrite Hf. cbn [hd_error].
  rewrite run_turn_bind_call. cbn [thrown fallible perform fst snd].
  rewrite run_turn_bind_call. cbn [thrown fallible perform fst snd].
  rewrite run_turn_await_wrapped.
  eexists. split; [reflexivity|].
  intros env later res b Hst Hb Hft. pose proof (ok_2xx res Hst) as Hok.
  cbv beta. rewrite run_finally, run_try_catch, run_bind.
  cbn [complete]. rewrite run_ret.
  run_with ltac:(first [rewrite Hok | rewrite Hb | rewrite Hft]).
  eexists. split; [reflexivity|]. cbn. rewrite nth_error_last. reflexivity.
Qed.

Lemma selection_read_at_click_witness :
  exists k,
    run_turn no_fault click_handler (fresh_page [report_xlsx]) =
    Waiting (Suspend (Fetch (upload_request report_xlsx)) k)
      (page_at_fetch report_xlsx (fresh_page [report_xlsx])) /\
    exists pg',
      run (server plain_200) (k (Fulfilled plain_200))
        (with_files [notes_txt]
           (page_at_fetch report_xlsx (fresh_page [report_xlsx])))
      = Finished tt pg' /\
      downloads pg' =
        [ {| saved_as := lit "report.md"; saved_data := payload |} ].
Proof.
  destruct (selection_read_at_click no_fault (fresh_page [report_xlsx])
              (file := report_xlsx) (rest := []) eq_refl)
    as (k & Hturn & Hk).
  exists k. split; [exact Hturn|].
  apply (Hk (server plain_200)
           (with_files [notes_txt]
              (page_at_fetch report_xlsx (fresh_page [report_xlsx])))
           plain_200 payload).
  - vm_compute. split; discriminate.
  - reflexivity.
  - reflexivity.
Defined.

(** X11 (lines 54-56).  In the event loop, whenever the number of
    uploads in flight goes down, the handler that ended has enabled the
    button: this holds whatever the user did to the selection while the
    request was under way, and the next click is delivered. *)
Theorem upload_ends_with_button_enabled w w' :
  reachable w ->
  step w w' ->
  in_flight w' < in_flight w ->
  uploadBtn_disabled (page w') = false /\ in_flight w' = 0.
Proof.
  intros Hreach Hstep Hlt.
  pose proof (reachable_cleans Hreach) as Hall.
  destruct (reachable_gate_invariant Hreach) as (Hlen & _ & _).
  unfold in_flight in *.
  destruct Hstep as [fs w|ft w Hen|ft w before later X p k o Hw Hset].
  - cbn in Hlt. lia.
  - destruct (run_turn ft click_handler (page w)) as [pg'|e pg'|s pg'];
      cbn in Hlt; try lia.
    rewrite length_app in Hlt. lia.
  - rewrite Hw in *. apply Forall_app in Hall as [_ Hsl].
    inversion Hsl as [|s l Hs _]; subst.
    rewrite length_app in Hlen, Hlt. cbn in Hlen, Hlt.
    destruct (Hs o) as [body Hk]. rewrite Hk in *.
    pose proof (wrapped_turn ft body (settled o (page w))) as Ht.
    destruct (run_turn ft
                (finally (try_catch body catch_block) finally_block)
                (settled o (page w))) as [pg'|e pg'|s pg'];
      cbn in *.
    + split; [exact Ht|]. rewrite length_app. lia.
    + contradiction.
    + rewrite !length_app in Hlt. cbn in Hlt. lia.
Qed.

Lemma upload_ends_with_button_enabled_witness :
  exists w',
    step one_click w' /\
    uploadBtn_disabled (page w') = false /\
    in_flight w' = 0.
Proof.
  assert (Hs : exists w',
             step one_click w' /\ in_flight w' < in_flight one_click).
  { eexists. split.
    - eapply (@promise_settles no_fault one_click [] [] Response _ _
                (Rejected {| message := lit "offline" |}));
        [reflexivity | exact I].
    - vm_compute. constructor. }
  destruct Hs as (w' & Hstep & Hlt). exists w'. split; [exact Hstep|].
  apply (upload_ends_with_button_enabled (w := one_click)).
  - exact (next (loaded (fresh_page [report_xlsx]) eq_refl)
             (user_clicks no_fault
                {| page := fresh_page [report_xlsx]; waiting := [] |}
                eq_refl)).
  - exact Hstep.
  - exact Hlt.
Defined.

(** X12 (lines 21, 52-56).  No turn of the handler ends with an
    exception that leaves it: not the turn of the click, and not a turn
    of a handler that waits in a reachable world, however its promise
    settles and whatever the page is by then.  The promise of the
    [async] listener is never rejected. *)
Theorem no_unhandled_rejection w :
  reachable w ->
  (forall ft pg e pg', run_turn ft click_handler pg <> Escaped e pg') /\
  (forall before later X (p : Promise X) k,
      waiting w = before ++ Suspend p k :: later ->
      forall ft o pg e pg', run_turn ft (k o) pg <> Escaped e pg').
Proof.
  intros Hreach. split.
  - intros ft pg e pg' H. pose proof (click_turn ft pg) as Ht.
    rewrite H in Ht. exact Ht.
  - intros before later X p k Hw ft o pg e pg' H.
    pose proof (reachable_cleans Hreach) as Hall.
    rewrite Hw in Hall. apply Forall_app in Hall as [_ Hsl].
    inversion Hsl as [|s l Hs _]; subst.
    destruct (Hs o) as [body Hk]. rewrite Hk in H.
    pose proof (wrapped_turn ft body pg) as Ht.
    rewrite H in Ht. exact Ht.
Qed.

Lemma no_unhandled_rejection_witness :
  match run_turn no_fault click_handler (fresh_page [report_xlsx]) with
  | Escaped _ _ => False
  | _ => True
  end.
Proof.
  destruct (no_unhandled_rejection (w := one_click)) as [Hclick _].
  - exact (next (loaded (fresh_page [report_xlsx]) eq_refl)
             (user_clicks no_fault
                {| page := fresh_page [report_xlsx]; waiting := [] |}
                eq_refl)).
  - destruct (run_turn no_fault click_handler (fresh_page [report_xlsx]))
      as [pg'|e pg'|s pg'] eqn:E; [exact I | | exact I].
    exact (Hclick _ _ _ _ E).
Defined.

(* ------------------------------------------------------------------ *)
(** ** Which header values name the download *)

Section MatchFacts.

Implicit Types (s pre g : jsstring).

Lemma match_filename_later pre s :
  (exists g, match_filename s = Some g) ->
  exists g, match_filename (pre ++ s) = Some g.
Proof.
  intros Hs. induction pre as [|c pre IH]; [exact Hs|].
  cbn [app match_filename].
  destruct (match_here (c :: pre ++ s)) as [g|]; [now exists g | exact IH].
Qed.

Lemma match_here_needs_head s :
  starts_with filename_eq_quote s = false -> match_here s = None.
Proof.
  intros H. unfold match_here. now rewrite H.
Qed.

Lemma match_filename_needs_head s :
  includes filename_eq_quote s = false -> match_filename s = None.
Proof.
  induction s as [|c s IH]; intros H.
  - reflexivity.
  - pose proof (includes_head _ _ H) as Hh.
    cbn [includes] in H. apply orb_false_elim in H as [_ H].
    cbn [match_filename]. rewrite (match_here_needs_head _ Hh).
    now apply IH.
Qed.

End MatchFacts.

(** X13 (lines 38-40).  A header value in which [filename=] followed by
    a double quote does not occur is not used: an unquoted
    [filename=out.md], for one, leaves the name to the fallback of line
    37. *)
Theorem header_without_quoted_filename_is_ignored file cd :
  includes filename_eq_quote cd = false ->
  choose_filename file (Some cd) =
  replace (lit ".xlsx") (lit ".md") (name file).
Proof.
  intros H. apply choose_filename_fallback. right.
  exists cd. split; [reflexivity | now apply match_filename_needs_head].
Qed.

Lemma header_without_quoted_filename_is_ignored_witness :
  choose_filename report_xlsx (Some (lit "attachment; filename=out.md")) =
  replace (lit ".xlsx") (lit ".md") (name report_xlsx).
Proof.
  apply (@header_without_quoted_filename_is_ignored report_xlsx
           (lit "attachment; filename=out.md")).
  reflexivity.
Defined.

(** X14 (line 39).  A header value matches the pattern exactly when
    somewhere in it stand [filename=] and a double quote, then one
    character at least, none of them a line terminator, then a double
    quote. *)
Theorem header_matches_iff cd :
  (exists g, match_filename cd = Some g) <->
  (exists pre g post,
      cd = pre ++ filename_eq_quote ++ g ++ dquote :: post /\
      g <> [] /\
      forallb (fun c => negb (line_terminator c)) g = true).
Proof.
  split.
  - intros [g Hg].
    destruct (match_filename_sound _ Hg) as (pre & post & Hcd & Hne & Hall).
    now exists pre, g, post.
  - intros (pre & g & post & -> & Hne & Hall).
    apply match_filename_later.
    eexists. apply match_filename_greedy; assumption.
Qed.
